(** * Smallocator: the compact admission core

    A shallow embedding of the allocator's admission path
    (validation.ts, balance.ts, crypto.ts, compact.ts) and the properties
    of nonce handling, id decoding, balance reconciliation, hashing and
    signing that hold of it.

    Part I holds the definitions, Part II the lemmas and theorems. *)

From Stdlib Require Import ZArith List String Ascii Bool Lia DecimalString Sorted.
Import ListNotations.

Open Scope string_scope.
Open Scope Z_scope.

(* ================================================================== *)
(** * Part I. Definitions *)
(* ================================================================== *)

(** ** The JavaScript runtime pieces the sources rely on *)

Module Js.

(** A thrown value: either an object that is [instanceof Error], with its
    [message], or any other value, with its [String(value)] rendering. *)
Inductive Exn : Type :=
| ErrorObj (message : string)
| Thrown (shown : string).

(** The result of evaluating an expression or awaiting a promise: a value,
    or an exception (a rejected promise). *)
Inductive Outcome (A : Type) : Type :=
| Ret (a : A)
| Throw (e : Exn).

Arguments Ret {A} a.
Arguments Throw {A} e.

Definition bind {A B : Type} (m : Outcome A) (k : A -> Outcome B) : Outcome B :=
  match m with
  | Ret a => k a
  | Throw e => Throw e
  end.

(** [try { body } catch (error) { handler }] *)
Definition try_catch {A : Type} (body : Outcome A) (handler : Exn -> Outcome A)
  : Outcome A :=
  match body with
  | Ret a => Ret a
  | Throw e => handler e
  end.

(** [error instanceof Error ? error.message : String(error)] *)
Definition message_or_string (e : Exn) : string :=
  match e with
  | ErrorObj m => m
  | Thrown s => s
  end.

(** [error instanceof Error ? error.message : fallback] *)
Definition message_or (fallback : string) (e : Exn) : string :=
  match e with
  | ErrorObj m => m
  | Thrown _ => fallback
  end.

(** *** Digits *)

Definition charCode (c : ascii) : Z := Z.of_N (N_of_ascii c).

(** Value of a digit character in any of the radixes 2, 8, 10, 16. *)
Definition digitValue (c : ascii) : option Z :=
  let n := charCode c in
  if (48 <=? n) && (n <=? 57) then Some (n - 48)
  else if (97 <=? n) && (n <=? 102) then Some (n - 87)
  else if (65 <=? n) && (n <=? 70) then Some (n - 55)
  else None.

(** The lower-case hexadecimal digit of [d], for [0 <= d < 16]. *)
Definition hexDigit (d : Z) : ascii :=
  ascii_of_N (Z.to_N (if d <? 10 then 48 + d else 87 + d)).

(** Reads [s] as a run of digits in [radix], most significant first, on
    top of the accumulator [acc]; [None] at the first foreign character. *)
Fixpoint digitsValue (radix acc : Z) (s : string) : option Z :=
  match s with
  | EmptyString => Some acc
  | String c r =>
      match digitValue c with
      | Some d => if d <? radix then digitsValue radix (acc * radix + d) r else None
      | None => None
      end
  end.

(** [value.toString(16).padStart(w, '0')] for [0 <= value < 16^w]. *)
Fixpoint hexPad (w : nat) (v : Z) : string :=
  match w with
  | O => EmptyString
  | S w' => hexPad w' (v / 16) ++ String (hexDigit (v mod 16)) EmptyString
  end.

(** [s.slice(0, n)] and [s.slice(n)]. *)
Fixpoint sliceTo (n : nat) (s : string) : string :=
  match n, s with
  | S n', String c r => String c (sliceTo n' r)
  | _, _ => EmptyString
  end.

Fixpoint sliceFrom (n : nat) (s : string) : string :=
  match n, s with
  | S n', String _ r => sliceFrom n' r
  | _, _ => s
  end.

(** *** BigInt *)

(** The white space of StringToBigInt that fits in one byte: space, tab,
    line feed, vertical tab, form feed, carriage return.  (The multi-byte
    Unicode spaces are not recognised here.) *)
Definition isWhiteSpace (c : ascii) : bool :=
  let n := charCode c in
  (n =? 32) || ((9 <=? n) && (n <=? 13)).

Fixpoint trimStart (s : string) : string :=
  match s with
  | EmptyString => EmptyString
  | String c r => if isWhiteSpace c then trimStart r else s
  end.

Fixpoint trimEnd (s : string) : string :=
  match s with
  | EmptyString => EmptyString
  | String c r =>
      match trimEnd r with
      | EmptyString => if isWhiteSpace c then EmptyString else String c EmptyString
      | r' => String c r'
      end
  end.

Definition syntaxError (s : string) : Exn :=
  ErrorObj ("Cannot convert " ++ s ++ " to a BigInt").

(** A non-empty run of digits in [radix]. *)
Definition digitsLiteral (radix : Z) (whole digits : string) : Outcome Z :=
  match digits with
  | EmptyString => Throw (syntaxError whole)
  | _ => match digitsValue radix 0 digits with
         | Some v => Ret v
         | None => Throw (syntaxError whole)
         end
  end.

(** [BigInt(s)] for a string [s] (StringToBigInt): surrounding white space
    is dropped; the empty string is zero; [0x], [0o], [0b] prefixes select
    the radix and take no sign; otherwise an optional sign and decimal
    digits.  Anything else is a SyntaxError. *)
Definition BigInt_of_string (s : string) : Outcome Z :=
  match trimEnd (trimStart s) with
  | EmptyString => Ret 0
  | String "0" (String "x" r) | String "0" (String "X" r) => digitsLiteral 16 s r
  | String "0" (String "o" r) | String "0" (String "O" r) => digitsLiteral 8 s r
  | String "0" (String "b" r) | String "0" (String "B" r) => digitsLiteral 2 s r
  | String "-" r => bind (digitsLiteral 10 s r) (fun v => Ret (- v))
  | String "+" r => digitsLiteral 10 s r
  | t => digitsLiteral 10 s t
  end.

(** [value.toString()] for a bigint. *)
Definition BigInt_toString (v : Z) : string :=
  NilZero.string_of_int (Z.to_int v).

(** [Number(value)] for a bigint, as the integer the resulting double
    denotes: values of at most 53 significant bits are exact, longer ones
    are rounded to 53 significant bits, to nearest, ties to even.
    (Magnitudes of 2^1024 and more, which become Infinity, are outside
    this definition.) *)
Definition Number_of_BigInt (n : Z) : Z :=
  let a := Z.abs n in
  let k := Z.log2 a + 1 in
  if k <=? 53 then n
  else
    let s := k - 53 in
    let q := Z.shiftr a s in
    let r := Z.land a (Z.ones s) in
    let half := Z.shiftl 1 (s - 1) in
    let q' := if (half <? r) || ((r =? half) && Z.odd q) then q + 1 else q in
    Z.sgn n * Z.shiftl q' s.

(** [/^\d+$/.test(s)] *)
Fixpoint allDecimal (s : string) : bool :=
  match s with
  | EmptyString => true
  | String c r =>
      let n := charCode c in
      (48 <=? n) && (n <=? 57) && allDecimal r
  end.

Definition isDecimalString (s : string) : bool :=
  match s with
  | EmptyString => false
  | _ => allDecimal s
  end.

End Js.

Export Js.

Notation "x <- m ;; k" := (bind m (fun x => k))
  (at level 61, m at next level, right associativity).

(** ** viem helpers *)

Module Viem.

(** [getAddress(address)]: throws unless the string is [0x] followed by
    forty hexadecimal digits; otherwise returns the checksummed spelling
    of the address.  That spelling is determined by the twenty bytes, so
    the embedding keeps their value, a number below [2^160]. *)
Definition getAddress (address : string) : Outcome Z :=
  match address with
  | String "0" (String "x" r) =>
      if Nat.eqb (String.length r) 40
      then match digitsValue 16 0 r with
           | Some v => Ret v
           | None => Throw (ErrorObj ("Address " ++ address ++ " is invalid."))
           end
      else Throw (ErrorObj ("Address " ++ address ++ " is invalid."))
  | _ => Throw (ErrorObj ("Address " ++ address ++ " is invalid."))
  end.

(** [getAddress(a).toLowerCase().slice(2)] *)
Definition lowerHex40 (a : Z) : string := hexPad 40 a.

(** [hexToBytes(hex)], the bytes read as one big-endian number. *)
Definition hexToBytes (hex : string) : Outcome Z :=
  let digits := match hex with
                | String "0" (String "x" r) => r
                | _ => hex
                end in
  match digitsValue 16 0 digits with
  | Some v => Ret v
  | None => Throw (ErrorObj ("Invalid byte sequence in " ++ hex))
  end.

(** [numberToHex(value, { size: 32 })]: throws when the value does not fit
    an unsigned integer of 32 bytes. *)
Definition numberToHex32 (value : Z) : Outcome string :=
  if (value <? 0) || (2 ^ 256 - 1 <? value)
  then Throw (ErrorObj ("Number " ++ BigInt_toString value ++
                        " is not in safe 256-bit unsigned integer range"))
  else Ret ("0x" ++ hexPad 64 value).

(** [stringToHex(s)]: the bytes of [s], two digits each. *)
Fixpoint hexOfBytes (s : string) : string :=
  match s with
  | EmptyString => EmptyString
  | String c r =>
      String (hexDigit (charCode c / 16))
        (String (hexDigit (charCode c mod 16)) (hexOfBytes r))
  end.

Definition stringToHex (s : string) : string := "0x" ++ hexOfBytes s.

(** [x.replace('0x', '')] on a hex string. *)
Definition strip0x (hex : string) : string :=
  match hex with
  | String "0" (String "x" r) => r
  | _ => hex
  end.

(** [concat([a, b])] on hex strings. *)
Definition concatHex (parts : list string) : string :=
  "0x" ++ fold_left (fun acc x => acc ++ strip0x x) parts "".

(** [size(hex)]: the number of bytes of a hex string. *)
Definition size (hex : string) : Z :=
  (Z.of_nat (String.length hex) - 2 + 1) / 2.

(** "\x19Ethereum Signed Message:\n" *)
Definition presignMessagePrefix : string :=
  String (ascii_of_nat 25) "Ethereum Signed Message:" ++ String (ascii_of_nat 10) "".

(** [toPrefixedMessage({ raw })]: the EIP-191 envelope of a raw message. *)
Definition toPrefixedMessage (raw : string) : string :=
  let prefix := stringToHex (presignMessagePrefix ++ BigInt_toString (size raw)) in
  concatHex [prefix; raw].

End Viem.

Export Viem.

(** ** Messages and results (validation.ts, compact.ts) *)

Record CompactMessage : Type := {
  arbiter : string;
  sponsor : string;
  nonce : option Z;
  expires : Z;
  id : Z;
  amount : string;
  witnessTypeString : option string;
  witnessHash : option string
}.

Record ValidationResult : Type := {
  isValid : bool;
  error : option string
}.

Definition valid : ValidationResult := {| isValid := true; error := None |}.

Definition invalid (msg : string) : ValidationResult :=
  {| isValid := false; error := Some msg |}.

(** A result is either an acceptance or a rejection that carries its
    reason. *)
Definition explained (r : ValidationResult) : Prop :=
  isValid r = true \/ (isValid r = false /\ exists msg, error r = Some msg).

Record CompactSubmission : Type := {
  chainId : string;
  compact : CompactMessage
}.

Record SubmitResult : Type := {
  result_hash : string;
  result_signature : string
}.

(** ** The indexer's answer (graphql.ts is consumed through its result) *)

Record ResourceLock : Type := { withdrawalStatus : Z; balance : string }.
Record SupportedChain : Type := { allocatorId : string }.
Record ProcessedClaim : Type := { claimHash : string }.
Record AccountDelta : Type := { delta : string }.

Record CompactDetailsResponse : Type := {
  account_resourceLocks : list ResourceLock;
  account_claims : list ProcessedClaim;
  allocator_supportedChains : list SupportedChain;
  accountDeltas : list AccountDelta
}.

Record CompactDetailsQuery : Type := {
  query_allocator : string;
  query_sponsor : string;
  query_lockId : string;
  query_chainId : string
}.

(** ** EIP-712 typed data handed to [hashTypedData] (crypto.ts) *)

Inductive FieldValue : Type :=
| VAddress (a : Z)
| VUint256 (n : option Z)
| VString (s : string)
| VBytes32 (h : string).

Record TypedDomain : Type := {
  domain_name : string;
  domain_version : string;
  domain_verifyingContract : string;
  domain_chainId : Z
}.

Record TypedData : Type := {
  td_domain : TypedDomain;
  td_types : list (string * string);
  td_primaryType : string;
  td_message : list (string * FieldValue)
}.

(** The value a message gives to a field. *)
Fixpoint fieldOf (name : string) (message : list (string * FieldValue))
  : option FieldValue :=
  match message with
  | [] => None
  | (k, v) :: rest => if String.eqb k name then Some v else fieldOf name rest
  end.

Definition DOMAIN (chain : Z) : TypedDomain :=
  {| domain_name := "The Compact";
     domain_version := "0";
     domain_verifyingContract := "0x00000000000018DF021Ff2467dF97ff846E09f48";
     domain_chainId := chain |}.

Definition COMPACT_TYPES : list (string * string) :=
  [ ("arbiter", "address"); ("sponsor", "address"); ("nonce", "uint256");
    ("expires", "uint256"); ("id", "uint256"); ("amount", "uint256") ].

Definition COMPACT_WITH_WITNESS_TYPES : list (string * string) :=
  [ ("arbiter", "address"); ("sponsor", "address"); ("nonce", "uint256");
    ("expires", "uint256"); ("id", "uint256"); ("amount", "uint256");
    ("witnessTypeString", "string"); ("witnessHash", "bytes32") ].

(** ** The database handle

    [PGlite] is used through [db.query(sql, params)].  Each statement the
    sources issue is one operation of the interface; an implementation may
    answer or throw.  Byte strings (the sponsor column) are passed as the
    number they spell. *)

Class Database (D : Type) : Type := {
  (** validateNonce: [SELECT COUNT( * ) ... WHERE chain_id = $1 AND
      sponsor = $2 AND nonce_high = $3 AND nonce_low = $4] *)
  selectNonceCount : D -> string -> Z -> Z -> Z -> Outcome Z;
  (** generateNonce: the gap query; the two components of the tuple
      [next_nonce], either of which may be NULL *)
  selectNextNonce : D -> string -> Z -> Outcome (option Z * option Z);
  (** storeNonce: [INSERT INTO nonces (id, chain_id, sponsor, nonce_high,
      nonce_low)] *)
  insertNonce : D -> string -> string -> Z -> Z -> Z -> Outcome D;
  (** getAllocatedBalance, no processed claims: sponsor, chain, lock id,
      current time, finalization threshold *)
  selectAllocated : D -> Z -> string -> string -> Z -> Z -> Outcome (list string);
  (** getAllocatedBalance, with the [claim_hash NOT IN (...)] filter *)
  selectAllocatedExcluding :
    D -> Z -> string -> string -> Z -> Z -> list string -> Outcome (list string);
  (** storeCompact: [INSERT INTO compacts (chain_id, compact, hash,
      signature, created_at)] *)
  insertCompact : D -> string -> CompactMessage -> string -> string -> Outcome D
}.

(** The three places that read [Date.now()]. *)
Inductive ClockRead : Type := AtExpiration | AtDomain | AtBalance.

(** What the process is given from outside: its environment variables, the
    clock, the indexer, the chain configuration, and the hashing and signing
    primitives of viem. *)
Record Env : Type := {
  (** the test [isNaN(n) || n <= 0 || n.toString() !== chainId] on
      [n = parseInt(chainId)], negated *)
  canonicalChainId : string -> bool;
  (** [Math.floor(Date.now() / 1000)] at each read *)
  now : ClockRead -> Z;
  (** [process.env.NODE_ENV === 'test'] *)
  NODE_ENV_test : bool;
  ALLOCATOR_ADDRESS : string;
  getCompactDetails : CompactDetailsQuery -> Outcome CompactDetailsResponse;
  (** [BigInt(getFinalizationThreshold(chainId))], from chain-config *)
  getFinalizationThreshold : string -> Outcome Z;
  randomUUID : string;
  hashTypedData : TypedData -> Outcome string;
  keccak256 : string -> string;
  (** the account's signature over a 32-byte hash *)
  sign : string -> Outcome string
}.

(** ** validation.ts *)

Section Validation.

Context {D : Type} `{Database D}.
Variable env : Env.

(** [bigintToHex(value)]: 32 bytes as 64 hex digits, no prefix. *)
Definition bigintToHex (value : Z) : Outcome string :=
  h <- numberToHex32 value ;;
  Ret (sliceFrom 2 h).

Definition addressToBytes (address : string) : Outcome Z :=
  hexToBytes address.

Definition toHexString (hex : string) : string := "0x" ++ hex.

(** [next_nonce.match(/\((\d+),(\d+)\)/)] followed by [BigInt] of the
    two groups: the pattern asks for digits in both places, so a tuple
    with a NULL or a negative component does not match. *)
Definition matchNextNonce (t : option Z * option Z) : Outcome (Z * Z) :=
  match t with
  | (Some high, Some low) =>
      if (high <? 0) || (low <? 0)
      then Throw (ErrorObj "Invalid nonce format returned")
      else Ret (high, low)
  | _ => Throw (ErrorObj "Invalid nonce format returned")
  end.

Definition generateNonce (sponsor chainId : string) (db : D) : Outcome Z :=
  sponsorBytes <- getAddress sponsor ;;
  next_nonce <- selectNextNonce db chainId sponsorBytes ;;
  m <- matchNextNonce next_nonce ;;
  let '(high, low) := m in
  let sponsorPart := Z.shiftl sponsorBytes 96 in
  let noncePart := Z.lor (Z.shiftl high 32) low in
  Ret (Z.lor sponsorPart noncePart).

(** The part of validateNonce and storeNonce that splits the 64 hex digits
    of a nonce: the forty sponsor digits, then [nonceHigh] and [nonceLow]
    as JavaScript numbers. *)
Definition splitFragment (fragmentPart : string) : Outcome (Z * Z) :=
  fragmentBigInt <- BigInt_of_string ("0x" ++ fragmentPart) ;;
  let nonceLow := Number_of_BigInt (Z.land fragmentBigInt 4294967295) in
  let nonceHigh := Number_of_BigInt (Z.shiftr fragmentBigInt 32) in
  Ret (nonceHigh, nonceLow).

Definition validateNonce (nonce : Z) (sponsor chainId : string) (db : D)
  : Outcome ValidationResult :=
  try_catch
    (nonceHex <- bigintToHex nonce ;;
     let sponsorPart := sliceTo 40 nonceHex in
     let fragmentPart := sliceFrom 40 nonceHex in
     a <- getAddress sponsor ;;
     let sponsorAddress := lowerHex40 a in
     if negb (String.eqb sponsorPart sponsorAddress)
     then Ret (invalid "Nonce does not match sponsor address")
     else
       hl <- splitFragment fragmentPart ;;
       let '(nonceHigh, nonceLow) := hl in
       sponsorParam <- addressToBytes sponsor ;;
       count <- selectNonceCount db chainId sponsorParam nonceHigh nonceLow ;;
       if count >? 0
       then Ret (invalid "Nonce has already been used")
       else Ret valid)
    (fun e => Ret (invalid ("Nonce validation error: " ++ message_or_string e))).

Definition storeNonce (nonce : Z) (chainId : string) (db : D) : Outcome D :=
  nonceHex <- bigintToHex nonce ;;
  let sponsorPart := sliceTo 40 nonceHex in
  let fragmentPart := sliceFrom 40 nonceHex in
  hl <- splitFragment fragmentPart ;;
  let '(nonceHigh, nonceLow) := hl in
  sponsorParam <- hexToBytes (toHexString sponsorPart) ;;
  insertNonce db (randomUUID env) chainId sponsorParam nonceHigh nonceLow.

Definition validateStructure (c : CompactMessage) : Outcome ValidationResult :=
  try_catch
    (match (_ <- getAddress (arbiter c) ;; getAddress (sponsor c)) with
     | Throw err =>
         Ret (invalid ("Invalid arbiter address: " ++ message_or "Unknown error" err))
     | Ret _ =>
         if expires c <=? 0 then Ret (invalid "Invalid expires timestamp")
         else if id c <=? 0 then Ret (invalid "Invalid id")
         else if negb (isDecimalString (amount c))
         then Ret (invalid "Invalid amount format")
         else
           match witnessTypeString c, witnessHash c with
           | None, Some _ | Some _, None =>
               Ret (invalid "Witness type and hash must both be present or both be null")
           | _, _ => Ret valid
           end
     end)
    (fun e => Ret (invalid ("Structural validation error: " ++ message_or_string e))).

Definition validateExpiration (expires : Z) : ValidationResult :=
  let now_ := now env AtExpiration in
  let twoHours := 7200 in
  if expires <=? now_ then invalid "Compact has expired"
  else if expires >? now_ + twoHours then invalid "Expiration must be within 2 hours"
  else valid.

Definition resetPeriods : list Z :=
  [1; 15; 60; 600; 3900; 86400; 612000; 2592000].

(** [(id >> 252n) & 0x7n] *)
Definition resetPeriodIndex (id : Z) : Z :=
  Number_of_BigInt (Z.land (Z.shiftr id 252) 7).

Definition validateDomainAndId (id expires : Z) (chainId _allocatorAddress : string)
  : Outcome ValidationResult :=
  try_catch
    (if id <=? 0 then Ret (invalid "Invalid ID: must be positive")
     else if negb (canonicalChainId env chainId)
     then Ret (invalid "Invalid chain ID format")
     else if NODE_ENV_test env && (id =? 1) then Ret valid
     else
       match nth_error resetPeriods (Z.to_nat (resetPeriodIndex id)) with
       | None => Throw (ErrorObj "Cannot mix BigInt and other types, use explicit conversions")
       | Some resetPeriod =>
           let now_ := now env AtDomain in
           if now_ + resetPeriod <? expires
           then Ret (invalid "Reset period would allow forced withdrawal before expiration")
           else Ret valid
       end)
    (fun e => Ret (invalid ("Domain/ID validation error: " ++ message_or_string e))).

(** [rows.reduce((sum, row) => sum + BigInt(row.amount), BigInt(0))], and
    the same fold over the indexer's deltas. *)
Definition sumBigInt (amounts : list string) : Outcome Z :=
  fold_left (fun acc s => sum <- acc ;; v <- BigInt_of_string s ;; Ret (sum + v))
            amounts (Ret 0).

(** balance.ts *)
Definition getAllocatedBalance (db : D) (sponsor : Z) (chainId lockId : string)
    (processedClaimHashes : list string) : Outcome Z :=
  let currentTimeSeconds := now env AtBalance in
  finalizationThreshold <- getFinalizationThreshold env chainId ;;
  match processedClaimHashes with
  | [] =>
      rows <- selectAllocated db sponsor chainId lockId
                currentTimeSeconds finalizationThreshold ;;
      sumBigInt rows
  | _ =>
      rows <- selectAllocatedExcluding db sponsor chainId lockId
                currentTimeSeconds finalizationThreshold processedClaimHashes ;;
      sumBigInt rows
  end.

(** [(compact.id >> 160n) & ((1n << 92n) - 1n)] *)
Definition allocatorIdOf (id : Z) : Z :=
  Z.land (Z.shiftr id 160) (Z.shiftl 1 92 - 1).

Definition insufficientMessage (have need : Z) : string :=
  "Insufficient allocatable balance (have " ++ BigInt_toString have ++
  ", need " ++ BigInt_toString need ++ ")".

Definition validateAllocation (c : CompactMessage) (chainId : string) (db : D)
  : Outcome ValidationResult :=
  try_catch
    (let allocatorId_ := allocatorIdOf (id c) in
     response <- getCompactDetails env
                   {| query_allocator := ALLOCATOR_ADDRESS env;
                      query_sponsor := sponsor c;
                      query_lockId := BigInt_toString (id c);
                      query_chainId := chainId |} ;;
     match account_resourceLocks response with
     | [] => Ret (invalid "Resource lock not found")
     | resourceLock :: _ =>
         if negb (withdrawalStatus resourceLock =? 0)
         then Ret (invalid "Resource lock has forced withdrawals enabled")
         else
           match option_map allocatorId (hd_error (allocator_supportedChains response)) with
           | None | Some EmptyString => Ret (invalid "Invalid allocator ID")
           | Some graphqlAllocatorId =>
               g <- BigInt_of_string graphqlAllocatorId ;;
               if negb (g =? allocatorId_) then Ret (invalid "Invalid allocator ID")
               else
                 pendingBalance <- sumBigInt (map delta (accountDeltas response)) ;;
                 resourceLockBalance <- BigInt_of_string (balance resourceLock) ;;
                 let allocatableBalance :=
                   if resourceLockBalance >? pendingBalance
                   then resourceLockBalance - pendingBalance
                   else 0 in
                 sponsorLower <- getAddress (sponsor c) ;;
                 lockHex <- bigintToHex (id c) ;;
                 allocatedBalance <-
                   getAllocatedBalance db sponsorLower chainId lockHex
                     (map claimHash (account_claims response)) ;;
                 amount_ <- BigInt_of_string (amount c) ;;
                 let totalNeededBalance := allocatedBalance + amount_ in
                 if allocatableBalance <? totalNeededBalance
                 then Ret (invalid (insufficientMessage allocatableBalance totalNeededBalance))
                 else Ret valid
           end
     end)
    (fun e => Ret (invalid ("Allocation validation error: " ++ message_or_string e))).

Definition validateCompact (c : CompactMessage) (chainId : string) (db : D)
  : Outcome ValidationResult :=
  try_catch
    (if negb (canonicalChainId env chainId)
     then Ret (invalid "Invalid chain ID format")
     else
       result <- validateStructure c ;;
       if negb (isValid result) then Ret result
       else
         nonceResult <-
           match nonce c with
           | Some n => validateNonce n (sponsor c) chainId db
           | None => Ret valid
           end ;;
         if negb (isValid nonceResult) then Ret nonceResult
         else
           let expirationResult := validateExpiration (expires c) in
           if negb (isValid expirationResult) then Ret expirationResult
           else
             domainResult <-
               validateDomainAndId (id c) (expires c) chainId (ALLOCATOR_ADDRESS env) ;;
             if negb (isValid domainResult) then Ret domainResult
             else
               allocationResult <- validateAllocation c chainId db ;;
               if negb (isValid allocationResult) then Ret allocationResult
               else Ret valid)
    (fun e => Ret (invalid (message_or "Validation failed" e))).

End Validation.

(** ** crypto.ts *)

Section Crypto.

Variable env : Env.

(** [!value] on a [string | null]: null and the empty string are falsy. *)
Definition falsy (value : option string) : bool :=
  match value with
  | None | Some EmptyString => true
  | Some _ => false
  end.

Definition baseMessage (normalizedArbiter normalizedSponsor : Z)
    (c : CompactMessage) (amount_ : Z) : list (string * FieldValue) :=
  [ ("arbiter", VAddress normalizedArbiter);
    ("sponsor", VAddress normalizedSponsor);
    ("nonce", VUint256 (nonce c));
    ("expires", VUint256 (Some (expires c)));
    ("id", VUint256 (Some (id c)));
    ("amount", VUint256 (Some amount_)) ].

Definition generateClaimHash (c : CompactMessage) (chain : Z) : Outcome string :=
  normalizedArbiter <- getAddress (arbiter c) ;;
  normalizedSponsor <- getAddress (sponsor c) ;;
  if falsy (witnessTypeString c) || falsy (witnessHash c)
  then
    amount_ <- BigInt_of_string (amount c) ;;
    hashTypedData env
      {| td_domain := DOMAIN chain;
         td_types := COMPACT_TYPES;
         td_primaryType := "Compact";
         td_message := baseMessage normalizedArbiter normalizedSponsor c amount_ |}
  else
    amount_ <- BigInt_of_string (amount c) ;;
    hashTypedData env
      {| td_domain := DOMAIN chain;
         td_types := COMPACT_WITH_WITNESS_TYPES;
         td_primaryType := "Compact";
         td_message :=
           (baseMessage normalizedArbiter normalizedSponsor c amount_ ++
            [ ("witnessTypeString",
               VString (match witnessTypeString c with Some s => s | None => "" end));
              ("witnessHash",
               VBytes32 (match witnessHash c with Some s => s | None => "" end)) ])%list |}.

(** viem's [signMessage] of a local account: the account signs
    [hashMessage(message)], the keccak256 hash of the EIP-191 envelope of
    the message. *)
Definition signMessage_raw (raw : string) : Outcome string :=
  sign env (keccak256 env (toPrefixedMessage raw)).

(** [walletClient.signMessage({ message: { raw: hash }, account })] *)
Definition signCompact (hash : string) (chain : Z) : Outcome string :=
  signMessage_raw hash.

End Crypto.

(** ** compact.ts *)

(** The value [undefined] where a database handle is expected.  Reading
    [db.query] on it throws the TypeError of a property read on
    [undefined], before any argument of the call is looked at. *)
Inductive Undefined : Type := undefined.

Definition readQueryOfUndefined {A : Type} : Outcome A :=
  Throw (ErrorObj "Cannot read properties of undefined (reading 'query')").

#[global] Instance Undefined_Database : Database Undefined := {|
  selectNonceCount := fun _ _ _ _ _ => readQueryOfUndefined;
  selectNextNonce := fun _ _ _ => readQueryOfUndefined;
  insertNonce := fun _ _ _ _ _ _ => readQueryOfUndefined;
  selectAllocated := fun _ _ _ _ _ _ => readQueryOfUndefined;
  selectAllocatedExcluding := fun _ _ _ _ _ _ _ => readQueryOfUndefined;
  insertCompact := fun _ _ _ _ _ => readQueryOfUndefined
|}.

Section Compact.

Context {D : Type} `{Database D}.
Variable env : Env.

Definition storeCompact (server : D) (submission : CompactSubmission)
    (hash signature : string) : Outcome D :=
  insertCompact server (chainId submission) (compact submission) hash signature.

(** [submitCompact].  The call is [validateCompact(submission.compact,
    submission.chainId)]: the third parameter of [validateCompact], [db],
    gets no argument and is [undefined] in the callee.  [storeCompact]
    writes to the server's database; the outcome carries the database
    after the call. *)
Definition submitCompact (server : D) (submission : CompactSubmission)
    (sponsorAddress : string) : Outcome (SubmitResult * D) :=
  compactSponsor <- getAddress (sponsor (compact submission)) ;;
  sessionSponsor <- getAddress sponsorAddress ;;
  if negb (compactSponsor =? sessionSponsor)
  then Throw (ErrorObj "Sponsor address does not match session")
  else
    validationResult <-
      validateCompact env (compact submission) (chainId submission) undefined ;;
    if negb (isValid validationResult)
    then Throw (ErrorObj (match error validationResult with
                          | None | Some EmptyString => "Invalid compact"
                          | Some msg => msg
                          end))
    else
      chain <- BigInt_of_string (chainId submission) ;;
      hash <- generateClaimHash env (compact submission) chain ;;
      chain' <- BigInt_of_string (chainId submission) ;;
      signature <- signCompact env hash chain' ;;
      server' <- storeCompact server submission hash signature ;;
      Ret ({| result_hash := hash; result_signature := signature |}, server').

End Compact.

(** ** The relational store *)

Module Store.

Record NonceRow : Type := {
  nonce_id : string;
  nonce_chain_id : string;
  nonce_sponsor : Z;
  nonce_high : Z;
  nonce_low : Z
}.

(** The columns of [compacts] that only the SELECT of getAllocatedBalance
    names: the values [sponsor], [compact_id], [amount] and [claim_hash]
    hold, and the number [CAST(expires AS BIGINT)] gives. *)
Record AllocationColumns : Type := {
  col_sponsor : string;
  col_compact_id : string;
  col_expires : Z;
  col_amount : string;
  col_claim_hash : string
}.

(** A row of [compacts].  The statements of compact.ts name [chain_id],
    [compact], [hash], [signature] and [created_at]; the SELECT of
    balance.ts names [chain_id] and the five columns above.  The schema is
    not among the sources, and nothing in them relates the two groups: a
    row carries both, and the second group is NULL in a row whose INSERT
    does not name it. *)
Record CompactRow : Type := {
  row_chain_id : string;
  row_compact : CompactMessage;
  row_hash : string;
  row_signature : string;
  row_created_at : Z;
  row_allocation : option AllocationColumns
}.

(** The two tables, and the clock [NOW()] reads. *)
Record Tables : Type := {
  nonces : list NonceRow;
  compacts : list CompactRow;
  current_timestamp : Z
}.

(** Modelled from the spec: the schema of the two tables is not among the
    sources.  The specification gives [nonces(chainId TEXT, sponsor
    BYTES20, high INT64, low INT32, PRIMARY KEY(chainId, sponsor, high,
    low))]: a value outside a column's type cannot be stored, and the
    insert of one is refused with an out-of-range error. *)
Definition INT32_MAX : Z := 2147483647.
Definition INT64_MAX : Z := 9223372036854775807.

Definition fitsInt32 (v : Z) : bool := (- INT32_MAX - 1 <=? v) && (v <=? INT32_MAX).
Definition fitsInt64 (v : Z) : bool := (- INT64_MAX - 1 <=? v) && (v <=? INT64_MAX).

Definition outOfRange (type : string) : Exn :=
  ErrorObj ("value out of range for type " ++ type).

Definition nonceRowIs (chain : string) (sp high low : Z) (r : NonceRow) : bool :=
  String.eqb (nonce_chain_id r) chain && (nonce_sponsor r =? sp)
  && (nonce_high r =? high) && (nonce_low r =? low).

(** [SELECT COUNT( * ) ... WHERE chain_id = $1 AND sponsor = $2 AND
    nonce_high = $3 AND nonce_low = $4]: the number of rows equal to the
    four parameters. *)
Definition tbl_selectNonceCount (t : Tables) (chain : string) (sp high low : Z)
  : Outcome Z :=
  Ret (Z.of_nat (List.length (filter (nonceRowIs chain sp high low) (nonces t)))).

(** Modelled from the spec: the primary key of [nonces], which makes the
    insert of an existing 4-tuple fail. *)
Definition tbl_insertNonce (t : Tables) (uuid chain : string) (sp high low : Z)
  : Outcome Tables :=
  if negb (fitsInt64 high) then Throw (outOfRange "bigint")
  else if negb (fitsInt32 low) then Throw (outOfRange "integer")
  else if existsb (nonceRowIs chain sp high low) (nonces t)
  then Throw (ErrorObj "duplicate key value violates unique constraint")
  else Ret {| nonces := (nonces t ++ [ {| nonce_id := uuid; nonce_chain_id := chain;
                                          nonce_sponsor := sp; nonce_high := high;
                                          nonce_low := low |} ])%list;
              compacts := compacts t;
              current_timestamp := current_timestamp t |}.

(** *** The gap query of generateNonce *)

(** [(nonce_high::numeric * (2^32)::numeric) + nonce_low::numeric] *)
Definition combined (hl : Z * Z) : Z := fst hl * 2 ^ 32 + snd hl.

(** The order of the window. *)
Definition byCombined (x y : Z * Z) : Prop := combined x <= combined y.

(** The rows of one chain and sponsor, as (high, low). *)
Definition fragmentsOf (t : Tables) (chain : string) (sp : Z) : list (Z * Z) :=
  map (fun r => (nonce_high r, nonce_low r))
      (filter (fun r => String.eqb (nonce_chain_id r) chain && (nonce_sponsor r =? sp))
              (nonces t)).

(** [ORDER BY] on the combined value. *)
Fixpoint insertByCombined (x : Z * Z) (l : list (Z * Z)) : list (Z * Z) :=
  match l with
  | [] => [x]
  | y :: r => if combined x <=? combined y then x :: l else y :: insertByCombined x r
  end.

Fixpoint orderByCombined (l : list (Z * Z)) : list (Z * Z) :=
  match l with
  | [] => []
  | x :: r => insertByCombined x (orderByCombined r)
  end.

(** [LEAD(nonce_high) OVER w, LEAD(nonce_low) OVER w]: each row with the
    one that follows it in the window, if any. *)
Fixpoint numbered_gaps (ordered : list (Z * Z)) : list ((Z * Z) * option (Z * Z)) :=
  match ordered with
  | [] => []
  | x :: r => (x, hd_error r) :: numbered_gaps r
  end.

(** [next_high IS NULL OR next_combined > combined + 1] *)
Definition opensGap (row : (Z * Z) * option (Z * Z)) : bool :=
  match snd row with
  | None => true
  | Some next => combined next >? combined (fst row) + 1
  end.

(** The two [CASE] expressions: the candidate a row announces.  The
    addition on the [INT64] column overflows at its maximum. *)
Definition gapAfter (hl : Z * Z) : Outcome (Z * Z) :=
  let '(high, low) := hl in
  if low =? 2147483647
  then if high =? INT64_MAX then Throw (outOfRange "bigint") else Ret (high + 1, 0)
  else Ret (high, low + 1).

Fixpoint mapOutcome {A B : Type} (f : A -> Outcome B) (l : list A) : Outcome (list B) :=
  match l with
  | [] => Ret []
  | x :: r => y <- f x ;; ys <- mapOutcome f r ;; Ret (y :: ys)
  end.

Definition hasZeroZero (rows : list (Z * Z)) : bool :=
  existsb (fun hl => (fst hl =? 0) && (snd hl =? 0)) rows.

(** The rows of [numbered_gaps] that pass the [WHERE] of [gaps]. *)
Definition gapRows (rows : list (Z * Z)) : list (Z * Z) :=
  map fst (filter opensGap (numbered_gaps (orderByCombined rows))).

(** The [gaps] common table expression. *)
Definition gaps (rows : list (Z * Z)) : Outcome (list (Z * Z)) :=
  announced <- mapOutcome gapAfter (gapRows rows) ;;
  Ret (announced ++ (if hasZeroZero rows then [] else [(0, 0)]))%list.

Definition maxColumn (l : list Z) : option Z :=
  match l with
  | [] => None
  | x :: r => Some (fold_left Z.max r x)
  end.

(** The second argument of [COALESCE]: built from the two column maxima,
    which are NULL on an empty selection. *)
Definition afterHighest (rows : list (Z * Z)) : option Z * option Z :=
  match maxColumn (map fst rows), maxColumn (map snd rows) with
  | Some maxHigh, Some maxLow =>
      if maxLow <? 2147483647 then (Some maxHigh, Some (maxLow + 1))
      else (Some (maxHigh + 1), Some 0)
  | _, _ => (None, Some 0)
  end.

Definition tbl_selectNextNonce (t : Tables) (chain : string) (sp : Z)
  : Outcome (option Z * option Z) :=
  let rows := fragmentsOf t chain sp in
  gs <- gaps rows ;;
  match orderByCombined gs with
  | g :: _ => Ret (Some (fst g), Some (snd g))
  | [] => Ret (afterHighest rows)
  end.

(** *** The balance query of getAllocatedBalance *)

(** The parameters are [getAddress(sponsor).toLowerCase()], the chain id
    and [bigintToHex(id)]; the comparisons are those of text. *)
Definition sponsorIs (sp : Z) (a : AllocationColumns) : bool :=
  String.eqb (col_sponsor a) ("0x" ++ lowerHex40 sp).

Definition lockIs (lockId : string) (a : AllocationColumns) : bool :=
  String.eqb (col_compact_id a) lockId.

(** [sponsor = $1 AND chain_id = $2 AND compact_id = $3 AND
    $4 < CAST(expires AS BIGINT) + $5]; a comparison with NULL is not
    true. *)
Definition unfinalized (sp : Z) (chain lockId : string) (now_ threshold : Z)
    (r : CompactRow) : bool :=
  match row_allocation r with
  | None => false
  | Some a =>
      sponsorIs sp a && String.eqb (row_chain_id r) chain && lockIs lockId a
      && (now_ <? col_expires a + threshold)
  end.

(** [claim_hash NOT IN ($6, ...)] *)
Definition notProcessed (processed : list string) (r : CompactRow) : bool :=
  match row_allocation r with
  | None => false
  | Some a => negb (existsb (String.eqb (col_claim_hash a)) processed)
  end.

(** [SELECT amount]: the column of the rows that pass the [WHERE], which
    therefore is not NULL in this embedding ([interface CompactRow
    { amount: string }]). *)
Definition amountOf (r : CompactRow) : string :=
  match row_allocation r with
  | None => ""
  | Some a => col_amount a
  end.

Definition tbl_selectAllocated (t : Tables) (sp : Z) (chain lockId : string)
    (now_ threshold : Z) : Outcome (list string) :=
  Ret (map amountOf (filter (unfinalized sp chain lockId now_ threshold) (compacts t))).

Definition tbl_selectAllocatedExcluding (t : Tables) (sp : Z) (chain lockId : string)
    (now_ threshold : Z) (processed : list string) : Outcome (list string) :=
  Ret (map amountOf
           (filter (fun r => unfinalized sp chain lockId now_ threshold r
                             && notProcessed processed r)
                   (compacts t))).

(** [INSERT INTO compacts (chain_id, compact, hash, signature, created_at)
    VALUES ($1, $2, $3, $4, NOW())].  Modelled from the spec: the
    [UNIQUE(chainId, claimHash)] constraint of [compacts], on the columns
    [chain_id] and [hash]. *)
Definition tbl_insertCompact (t : Tables) (chain : string) (c : CompactMessage)
    (hash signature : string) : Outcome Tables :=
  if existsb (fun r => String.eqb (row_chain_id r) chain && String.eqb (row_hash r) hash)
             (compacts t)
  then Throw (ErrorObj "duplicate key value violates unique constraint")
  else Ret {| nonces := nonces t;
              compacts := (compacts t ++ [ {| row_chain_id := chain; row_compact := c;
                                              row_hash := hash; row_signature := signature;
                                              row_created_at := current_timestamp t;
                                              row_allocation := None |} ])%list;
              current_timestamp := current_timestamp t |}.

#[export] Instance Tables_Database : Database Tables := {|
  selectNonceCount := tbl_selectNonceCount;
  selectNextNonce := tbl_selectNextNonce;
  insertNonce := tbl_insertNonce;
  selectAllocated := tbl_selectAllocated;
  selectAllocatedExcluding := tbl_selectAllocatedExcluding;
  insertCompact := tbl_insertCompact
|}.

End Store.

Export Store.

(** ** A concrete deployment, for running the definitions

    One sponsor on chain 1 with a lock of ten tokens, stand-ins for the
    hashing and signing primitives, and an empty store. *)

Module Demo.

Definition sponsorAddress : string := "0xf39Fd6e51aad88F6F4ce6aB8827279cffFb92266".

Definition sponsorValue : Z := 0xf39Fd6e51aad88F6F4ce6aB8827279cffFb92266.

Definition lockResponse (balance_ : string) (status : Z) : CompactDetailsResponse :=
  {| account_resourceLocks := [ {| withdrawalStatus := status; balance := balance_ |} ];
     account_claims := [];
     allocator_supportedChains := [ {| allocatorId := "1" |} ];
     accountDeltas := [] |}.

(** A digest that tells the two schemas apart and depends on the nonce
    and the expiry; a null nonce is refused. *)
Definition toyHash (td : TypedData) : Outcome string :=
  match td_message td with
  | _ :: _ :: (_, VUint256 (Some n)) :: (_, VUint256 (Some e)) :: _ =>
      Ret ("0x" ++ hexPad 2 (Z.of_nat (List.length (td_types td))) ++
           hexPad 10 e ++ hexPad 52 n)
  | _ => Throw (ErrorObj "Cannot convert null to a BigInt")
  end.

Definition env (balance_ : string) (status : Z) : Env :=
  {| canonicalChainId := fun s => String.eqb s "1";
     now := fun _ => 1700000000;
     NODE_ENV_test := false;
     ALLOCATOR_ADDRESS := sponsorAddress;
     getCompactDetails := fun _ => Ret (lockResponse balance_ status);
     getFinalizationThreshold := fun _ => Ret 25;
     randomUUID := "3f2b4c5d-0000-4000-8000-000000000001";
     hashTypedData := toyHash;
     keccak256 := fun m => "0x" ++ hexPad 64 (Z.of_nat (String.length m));
     sign := fun h => Ret ("0x" ++ strip0x h ++ strip0x h ++ "1b") |}.

Definition funded : Env := env "10000000000000000000" 0.

Definition emptyTables : Tables :=
  {| nonces := []; compacts := []; current_timestamp := 1700000000 |}.

(** resetPeriodIndex 7, allocatorId 1, tokenLockId 0 *)
Definition lockId : Z := Z.lor (Z.shiftl 7 252) (Z.shiftl 1 160).

Definition compactWith (nonce_ : option Z) : CompactMessage :=
  {| arbiter := sponsorAddress;
     sponsor := sponsorAddress;
     nonce := nonce_;
     expires := 1700003600;
     id := lockId;
     amount := "1000000000000000000";
     witnessTypeString := None;
     witnessHash := None |}.

Definition submissionWith (nonce_ : option Z) : CompactSubmission :=
  {| chainId := "1"; compact := compactWith nonce_ |}.

(** The nonce of the sponsor with fragment (0, 0). *)
Definition firstNonce : Z := sponsorValue * 2 ^ 96.

(** A nonce whose high word needs 54 bits, and its neighbour below. *)
Definition wideNonce : Z := sponsorValue * 2 ^ 96 + (2 ^ 53 + 1) * 2 ^ 32.
Definition roundNonce : Z := sponsorValue * 2 ^ 96 + 2 ^ 53 * 2 ^ 32.

(** The store with the one nonce row (sponsor, 2^53, 0). *)
Definition roundedStore : Tables :=
  {| nonces := [ {| nonce_id := "3f2b4c5d-0000-4000-8000-000000000001";
                    nonce_chain_id := "1";
                    nonce_sponsor := sponsorValue;
                    nonce_high := 2 ^ 53;
                    nonce_low := 0 |} ];
     compacts := [];
     current_timestamp := 1700000000 |}.

(** A ledger in which the sponsor has used every fragment (0, 0) ...
    (0, n) and the fragment (1, 0). *)
Definition rowOf (high low : Z) : NonceRow :=
  {| nonce_id := hexPad 16 high ++ hexPad 16 low;
     nonce_chain_id := "1";
     nonce_sponsor := sponsorValue;
     nonce_high := high;
     nonce_low := low |}.

Definition lowRun (first count : nat) : list NonceRow :=
  map (fun k => rowOf 0 (Z.of_nat k)) (seq first count).

Definition blockLedger (n : nat) : Tables :=
  {| nonces := (lowRun 0 (S n) ++ [ rowOf 1 0 ])%list;
     compacts := [];
     current_timestamp := 1700000000 |}.

(** All of (0, 0) ... (0, 2^31 - 1), and (1, 0). *)
Definition exhaustedBlock : Tables := blockLedger (Z.to_nat 2147483647).

(** A 32-byte digest. *)
Definition digest : string :=
  "0x1234567890123456789012345678901234567890123456789012345678901234".

(** A compact whose witness type string is present and empty. *)
Definition emptyTypeCompact : CompactMessage :=
  {| arbiter := sponsorAddress;
     sponsor := sponsorAddress;
     nonce := Some firstNonce;
     expires := 1700003600;
     id := lockId;
     amount := "1000000000000000000";
     witnessTypeString := Some "";
     witnessHash := Some digest |}.

End Demo.

(** ** The balance rule in the specification's words, for comparison

    Section 4.4 of the specification: [snapshotAllocatable = max(0,
    balance - pendingDelta)]; a local compact is outstanding iff [now <
    expires + finalizationThreshold(chainId)] and its claim hash is not in
    [snapshot.claims]; [locallyAllocated] is the sum of the amounts of the
    outstanding compacts of the sponsor, chain and lock. *)

Module Reconciler.

Definition snapshotAllocatable (balance_ pendingDelta : Z) : Z :=
  Z.max 0 (balance_ - pendingDelta).

(** The stored compacts of the sponsor, chain and lock: the rows of
    [compacts] whose [sponsor] is the lower-case address, whose [chain_id]
    is the chain and whose [compact_id] is the id in 64 hex digits. *)
Definition sameLock (sp : Z) (chain : string) (lock : Z) (r : CompactRow) : bool :=
  match row_allocation r with
  | None => false
  | Some a =>
      String.eqb (col_sponsor a) ("0x" ++ lowerHex40 sp)
      && String.eqb (row_chain_id r) chain
      && String.eqb (col_compact_id a) (hexPad 64 lock)
  end.

Definition outstanding (now_ threshold : Z) (claims : list string) (r : CompactRow)
  : bool :=
  match row_allocation r with
  | None => false
  | Some a =>
      (now_ <? col_expires a + threshold)
      && negb (existsb (String.eqb (col_claim_hash a)) claims)
  end.

Definition locallyAllocated (sp : Z) (chain : string) (lock now_ threshold : Z)
    (claims : list string) (t : Tables) : Outcome Z :=
  sumBigInt
    (map amountOf
         (filter (fun r => sameLock sp chain lock r && outstanding now_ threshold claims r)
                 (compacts t))).

(** The allocation stage accepts iff this holds. *)
Definition sufficient (have allocated newAmount : Z) : bool :=
  allocated + newAmount <=? have.

End Reconciler.

(** ** The nonce space in the specification's words, for comparison

    Section 4.3 of the specification: fragments are pairs (high, low) with
    [low] in [0, 2^31 - 1], ordered by [high * 2^32 + low];
    [successor(h, l)] is [(h, l + 1)] if [l < 2^31 - 1], else [(h + 1, 0)];
    generate-next returns the smallest fragment not already in the
    ledger. *)

Module NonceSpace.

Definition validFragment (f : Z * Z) : Prop :=
  0 <= fst f /\ 0 <= snd f <= 2147483647.

Definition successor (f : Z * Z) : Z * Z :=
  if snd f <? 2147483647 then (fst f, snd f + 1) else (fst f + 1, 0).

Definition leastUnused (used : list (Z * Z)) (f : Z * Z) : Prop :=
  validFragment f
  /\ ~ In f used
  /\ forall g, validFragment g -> ~ In g used -> combined f <= combined g.

(** The rows of a ledger fit their columns and come from this space. *)
Definition storable (used : list (Z * Z)) : Prop :=
  forall f, In f used -> validFragment f /\ fst f < INT64_MAX.

(** What [gaps] holds when every announcing row has a successor: the
    successors of the rows that open a gap, and (0, 0) if it is free. *)
Definition candidates (rows : list (Z * Z)) : list (Z * Z) :=
  (map successor (gapRows rows) ++ (if hasZeroZero rows then [] else [ (0, 0) ]))%list.

End NonceSpace.

(** ** The id layout in the specification's words, for comparison

    Section 3.2 of the specification places [resetPeriodIndex] in bits
    255..253 and a 93-bit [allocatorId] in bits 252..160, above the 160
    bits of [tokenLockId]. *)

Module Layout.

Definition spec_resetPeriodIndex (id : Z) : Z := Z.land (Z.shiftr id 253) (Z.ones 3).

Definition spec_allocatorId (id : Z) : Z := Z.land (Z.shiftr id 160) (Z.ones 93).

Definition spec_tokenLockId (id : Z) : Z := Z.land id (Z.ones 160).

End Layout.

(** ** compact.ts, the lookup by hash *)







(** The reset period a compact id selects: [resetPeriods[resetPeriodIndex]]. *)
Definition resetPeriodOf (id : Z) : Z :=
  nth (Z.to_nat (resetPeriodIndex id)) resetPeriods 0.

(** ** session.ts: verifySession and the sign-in message *)

Module Session.

Record SessionPayload : Type := {
  domain : string;
  address : string;
  uri : string;
  statement : string;
  version : string;
  (** a JavaScript number; the embedding takes the integer-valued ones *)
  chainId : Z;
  nonce : string;
  issuedAt : string;
  expirationTime : string;
  resources : option (list string)
}.

(** [lines.join(sep)] *)
Fixpoint join (sep : string) (lines : list string) : string :=
  match lines with
  | [] => EmptyString
  | [ l ] => l
  | l :: rest => l ++ sep ++ join sep rest
  end.

Definition newline : string := String (ascii_of_nat 10) EmptyString.

Definition messageLines (payload : SessionPayload) : list string :=
  [ domain payload ++ " wants you to sign in with your Ethereum account:";
    address payload;
    "";
    statement payload;
    "";
    "URI: " ++ uri payload;
    "Version: " ++ version payload;
    "Chain ID: " ++ BigInt_toString (chainId payload);
    "Nonce: " ++ nonce payload;
    "Issued At: " ++ issuedAt payload;
    "Expiration Time: " ++ expirationTime payload ].

(** session.ts [formatMessage]: the resources, when there are any, follow
    under a [Resources:] line. *)
Definition formatMessage (payload : SessionPayload) : string :=
  let lines := messageLines payload in
  let lines :=
    match resources payload with
    | Some (r :: rs) =>
        (lines ++ [ "Resources:" ] ++ map (String.append "- ") (r :: rs))%list
    | _ => lines
    end in
  join newline lines.

(** The test helper [formatTestMessage], which knows no resources. *)
Definition formatTestMessage (payload : SessionPayload) : string :=
  join newline (messageLines payload).

(** The [sessions] table as verifySession uses it: [SELECT address,
    expires_at FROM sessions WHERE id = $1] and [DELETE FROM sessions WHERE
    id = $1].  Instants are milliseconds since the epoch. *)
Class SessionStore (D : Type) : Type := {
  selectSession : D -> string -> Outcome (list (string * Z));
  deleteSession : D -> string -> Outcome D
}.

(** [verifySession(server, sessionId, address?)] at the instant [nowMs]
    of [new Date()].  The database after the call is returned also when
    the call throws: an expired session is deleted before the throw. *)
Definition verifySession {D : Type} `{SessionStore D} (nowMs : Z) (server : D)
    (sessionId : string) (address_ : option string) : Outcome bool * D :=
  match sessionId with
  | EmptyString => (Throw (ErrorObj "Session ID is required"), server)
  | _ =>
      match selectSession server sessionId with
      | Throw e => (Throw e, server)
      | Ret [] => (Throw (ErrorObj "Invalid session ID"), server)
      | Ret ((sessionAddress, expiresAt) :: _) =>
          if nowMs >? expiresAt
          then
            match deleteSession server sessionId with
            | Throw e => (Throw e, server)
            | Ret server' => (Throw (ErrorObj "Session has expired"), server')
            end
          else
            match address_ with
            | None | Some EmptyString => (Ret true, server)
            | Some a =>
                match getAddress a with
                | Throw e => (Throw e, server)
                | Ret given =>
                    match getAddress sessionAddress with
                    | Throw e => (Throw e, server)
                    | Ret stored =>
                        if negb (given =? stored)
                        then (Throw (ErrorObj "Session address mismatch"), server)
                        else (Ret true, server)
                    end
                end
            end
      end
  end.

Record SessionRow : Type := {
  row_id : string;
  row_address : string;
  row_expires_at : Z
}.

Definition tbl_selectSession (rows : list SessionRow) (sid : string)
  : Outcome (list (string * Z)) :=
  Ret (map (fun r => (row_address r, row_expires_at r))
           (filter (fun r => String.eqb (row_id r) sid) rows)).

Definition tbl_deleteSession (rows : list SessionRow) (sid : string)
  : Outcome (list SessionRow) :=
  Ret (filter (fun r => negb (String.eqb (row_id r) sid)) rows).

#[global] Instance Rows_SessionStore : SessionStore (list SessionRow) := {|
  selectSession := tbl_selectSession;
  deleteSession := tbl_deleteSession
|}.

End Session.

(** ** Further ledgers and compacts, for running the definitions *)

Module Scenario.

(** The sponsor has used the fragments (0, 0) and (0, 2). *)
Definition gappedLedger : Tables :=
  {| nonces := [ Demo.rowOf 0 0; Demo.rowOf 0 2 ];
     compacts := [];
     current_timestamp := 1700000000 |}.

(** The nonce of the sponsor with fragment (0, 1). *)
Definition secondNonce : Z := Demo.sponsorValue * 2 ^ 96 + 1.


(** A store with five compacts of the sponsor on chain 1.  For the lock
    of [Demo.lockId] one is outstanding (two tokens), one is past its
    finalization, one is among the processed claims; one is for another
    lock; and one has no allocation columns. *)
Definition sponsorLower : string := "0xf39fd6e51aad88f6f4ce6ab8827279cfffb92266".

Definition allocationOf (lock expires_ : Z) (amount_ claim : string)
  : option AllocationColumns :=
  Some {| col_sponsor := sponsorLower;
          col_compact_id := hexPad 64 lock;
          col_expires := expires_;
          col_amount := amount_;
          col_claim_hash := claim |}.

Definition compactRow (hash : string) (columns : option AllocationColumns)
  : CompactRow :=
  {| row_chain_id := "1";
     row_compact := Demo.compactWith None;
     row_hash := hash;
     row_signature := "0x";
     row_created_at := 1699990000;
     row_allocation := columns |}.

Definition busyTables : Tables :=
  {| nonces := [];
     compacts :=
       [ compactRow "0xa1" (allocationOf Demo.lockId 1700003000 "2000000000000000000" "0xa1");
         compactRow "0xa2" (allocationOf Demo.lockId 1699999000 "4000000000000000000" "0xa2");
         compactRow "0xa3" (allocationOf Demo.lockId 1700003000 "8000000000000000000" "0xa3");
         compactRow "0xa4" (allocationOf (Demo.lockId + 1) 1700003000
                              "16000000000000000000" "0xa4");
         compactRow "0xa5" None ];
     current_timestamp := 1700000000 |}.


(** The indexer's answer for the lock: a balance, one processed claim and
    two deltas that sum to half a token. *)
Definition busyResponse (balance_ : string) (status : Z) : CompactDetailsResponse :=
  {| account_resourceLocks := [ {| withdrawalStatus := status; balance := balance_ |} ];
     account_claims := [ {| claimHash := "0xa3" |} ];
     allocator_supportedChains := [ {| allocatorId := "1" |} ];
     accountDeltas := [ {| delta := "1000000000000000000" |};
                        {| delta := "-500000000000000000" |} ] |}.

Definition busy (balance_ : string) (status : Z) : Env :=
  {| canonicalChainId := canonicalChainId Demo.funded;
     now := now Demo.funded;
     NODE_ENV_test := NODE_ENV_test Demo.funded;
     ALLOCATOR_ADDRESS := ALLOCATOR_ADDRESS Demo.funded;
     getCompactDetails := fun _ => Ret (busyResponse balance_ status);
     getFinalizationThreshold := getFinalizationThreshold Demo.funded;
     randomUUID := randomUUID Demo.funded;
     hashTypedData := hashTypedData Demo.funded;
     keccak256 := keccak256 Demo.funded;
     sign := sign Demo.funded |}.

Definition sessions : list Session.SessionRow :=
  [ {| Session.row_id := "s-1"; Session.row_address := Demo.sponsorAddress;
       Session.row_expires_at := 1700003600000 |};
    {| Session.row_id := "s-2"; Session.row_address := Demo.sponsorAddress;
       Session.row_expires_at := 1699990000000 |} ].

Definition payload : Session.SessionPayload :=
  {| Session.domain := "smallocator.example";
     Session.address := Demo.sponsorAddress;
     Session.uri := "https://smallocator.example";
     Session.statement := "Sign in to Smallocator";
     Session.version := "1";
     Session.chainId := 1;
     Session.nonce := "d6e1c0c4-3d78-4daa-9e57-5485b7c8c6c3";
     Session.issuedAt := "2024-03-07T12:00:00.000Z";
     Session.expirationTime := "2024-03-07T13:00:00.000Z";
     Session.resources := None |}.

End Scenario.

(* ================================================================== *)
(** * Part II. Lemmas and theorems *)
(* ================================================================== *)

(** ** Hexadecimal rendering and reading *)

Ltac digit_cases d :=
  let H := fresh in
  assert (H : d = 0 \/ d = 1 \/ d = 2 \/ d = 3 \/ d = 4 \/ d = 5 \/ d = 6 \/ d = 7 \/
              d = 8 \/ d = 9 \/ d = 10 \/ d = 11 \/ d = 12 \/ d = 13 \/ d = 14 \/ d = 15)
    by lia;
  repeat (destruct H as [H | H]; [subst d | ]); try subst d.

Lemma digitValue_hexDigit (d : Z) :
  0 <= d < 16 -> digitValue (hexDigit d) = Some d.
Proof. intros Hd. digit_cases d; reflexivity. Qed.

Lemma isWhiteSpace_hexDigit (d : Z) :
  0 <= d < 16 -> isWhiteSpace (hexDigit d) = false.
Proof. intros Hd. digit_cases d; reflexivity. Qed.

Lemma string_app_assoc (a b c : string) : ((a ++ b) ++ c = a ++ (b ++ c))%string.
Proof. induction a as [| x a IH]; simpl; [reflexivity | now rewrite IH]. Qed.

Lemma string_app_nil_r (a : string) : (a ++ "")%string = a.
Proof. induction a as [| x a IH]; simpl; [reflexivity | now rewrite IH]. Qed.

Lemma string_length_app (a b : string) :
  String.length (a ++ b) = (String.length a + String.length b)%nat.
Proof. induction a as [| x a IH]; simpl; [reflexivity | now rewrite IH]. Qed.

Lemma digitsValue_app (radix acc : Z) (s1 s2 : string) :
  digitsValue radix acc (s1 ++ s2) =
  match digitsValue radix acc s1 with
  | Some a => digitsValue radix a s2
  | None => None
  end.
Proof.
  revert acc. induction s1 as [| c s1 IH]; intros acc; simpl.
  - reflexivity.
  - destruct (digitValue c) as [d |]; [| reflexivity].
    destruct (d <? radix); [apply IH | reflexivity].
Qed.

Lemma hexPad_length (w : nat) (v : Z) : String.length (hexPad w v) = w.
Proof.
  revert v. induction w as [| w IH]; intros v; simpl.
  - reflexivity.
  - rewrite string_length_app, IH. simpl. lia.
Qed.

Lemma digitsValue_hexPad (w : nat) (v acc : Z) :
  0 <= v ->
  digitsValue 16 acc (hexPad w v) = Some (acc * 16 ^ Z.of_nat w + v mod 16 ^ Z.of_nat w).
Proof.
  revert v acc. induction w as [| w IH]; intros v acc Hv.
  - simpl. rewrite Z.mod_1_r. f_equal. lia.
  - cbn [hexPad]. rewrite digitsValue_app.
    rewrite IH by (apply Z.div_pos; lia).
    cbn [digitsValue].
    assert (Hd : 0 <= v mod 16 < 16) by (apply Z.mod_pos_bound; lia).
    rewrite (digitValue_hexDigit _ Hd).
    replace (v mod 16 <? 16) with true by (symmetry; apply Z.ltb_lt; lia).
    f_equal.
    rewrite Nat2Z.inj_succ, Z.pow_succ_r by lia.
    set (p := 16 ^ Z.of_nat w).
    assert (Hp : 0 < p) by (apply Z.pow_pos_nonneg; lia).
    rewrite (Z.rem_mul_r v 16 p) by lia.
    lia.
Qed.

Lemma hexPad_split (a b : nat) (v : Z) :
  hexPad (a + b) v = (hexPad a (v / 16 ^ Z.of_nat b) ++ hexPad b v)%string.
Proof.
  revert v. induction b as [| b IH]; intros v.
  - rewrite Nat.add_0_r. simpl. rewrite Z.div_1_r, string_app_nil_r. reflexivity.
  - rewrite Nat.add_succ_r. cbn [hexPad]. rewrite IH.
    rewrite string_app_assoc. f_equal. f_equal.
    rewrite Nat2Z.inj_succ, Z.pow_succ_r by lia.
    rewrite Z.div_div by (try apply Z.pow_pos_nonneg; lia). reflexivity.
Qed.

Lemma sliceTo_app (s1 s2 : string) : sliceTo (String.length s1) (s1 ++ s2) = s1.
Proof. induction s1 as [| c s1 IH]; simpl; [now destruct s2 | now rewrite IH]. Qed.

Lemma sliceFrom_app (s1 s2 : string) : sliceFrom (String.length s1) (s1 ++ s2) = s2.
Proof. induction s1 as [| c s1 IH]; simpl; [now destruct s2 | apply IH]. Qed.

(** Two 40-digit renderings are the same string exactly when the numbers
    agree on their low 160 bits. *)
Lemma hexPad_eqb (w : nat) (x y : Z) :
  0 <= x -> 0 <= y ->
  String.eqb (hexPad w x) (hexPad w y) = (x mod 16 ^ Z.of_nat w =? y mod 16 ^ Z.of_nat w).
Proof.
  intros Hx Hy.
  destruct (String.eqb_spec (hexPad w x) (hexPad w y)) as [E | E].
  - symmetry. apply Z.eqb_eq.
    pose proof (digitsValue_hexPad w x 0 Hx) as Px.
    pose proof (digitsValue_hexPad w y 0 Hy) as Py.
    rewrite E in Px. rewrite Px in Py. injection Py. lia.
  - symmetry. apply Z.eqb_neq. intros Heq. apply E. clear E.
    revert x y Hx Hy Heq. induction w as [| w IH]; intros x y Hx Hy Heq.
    + reflexivity.
    + cbn [hexPad].
      rewrite Nat2Z.inj_succ, Z.pow_succ_r in Heq by lia.
      set (p := 16 ^ Z.of_nat w) in *.
      assert (Hp : 0 < p) by (apply Z.pow_pos_nonneg; lia).
      rewrite (Z.rem_mul_r x 16 p), (Z.rem_mul_r y 16 p) in Heq by lia.
      assert (Hdx : 0 <= x mod 16 < 16) by (apply Z.mod_pos_bound; lia).
      assert (Hdy : 0 <= y mod 16 < 16) by (apply Z.mod_pos_bound; lia).
      assert (Hqx : 0 <= (x / 16) mod p < p) by (apply Z.mod_pos_bound; lia).
      assert (Hqy : 0 <= (y / 16) mod p < p) by (apply Z.mod_pos_bound; lia).
      assert (x mod 16 = y mod 16 /\ (x / 16) mod p = (y / 16) mod p) as [E1 E2] by nia.
      rewrite E1. f_equal.
      apply IH; try (apply Z.div_pos; lia). exact E2.
Qed.

Lemma trimEnd_hexPad (w : nat) (v : Z) : trimEnd (hexPad w v) = hexPad w v.
Proof.
  assert (G : forall s, trimEnd s = s ->
              forall d, 0 <= d < 16 ->
              trimEnd (s ++ String (hexDigit d) "") = (s ++ String (hexDigit d) "")%string).
  { induction s as [| c s IH]; intros Hs d Hd.
    - simpl. now rewrite (isWhiteSpace_hexDigit d Hd).
    - cbn [append trimEnd] in *.
      destruct (trimEnd s) as [| c' s'] eqn:Es.
      + destruct (isWhiteSpace c); [discriminate |].
        injection Hs as Hs. subst s. simpl.
        now rewrite (isWhiteSpace_hexDigit d Hd).
      + injection Hs as Hs. rewrite (IH Hs d Hd).
        destruct (s ++ String (hexDigit d) "")%string eqn:E; [| reflexivity].
        destruct s; discriminate. }
  revert v. induction w as [| w IH]; intros v; [reflexivity |].
  cbn [hexPad]. apply G; [apply IH | apply Z.mod_pos_bound; lia].
Qed.

(** [BigInt('0x' + digits)] on a rendering of [w > 0] digits. *)
Lemma BigInt_of_hexPad (w : nat) (v : Z) :
  0 <= v -> (0 < w)%nat ->
  BigInt_of_string ("0x" ++ hexPad w v) = Ret (v mod 16 ^ Z.of_nat w).
Proof.
  intros Hv Hw. unfold BigInt_of_string.
  change (trimStart ("0x" ++ hexPad w v)) with (String "0" (String "x" (hexPad w v))).
  assert (E : trimEnd (String "0" (String "x" (hexPad w v)))
              = String "0" (String "x" (hexPad w v))).
  { cbn [trimEnd]. rewrite trimEnd_hexPad.
    destruct (hexPad w v) eqn:Eh; [| reflexivity].
    pose proof (hexPad_length w v) as L. rewrite Eh in L. simpl in L. lia. }
  rewrite E. unfold digitsLiteral.
  rewrite digitsValue_hexPad by assumption.
  destruct (hexPad w v) eqn:Eh.
  - pose proof (hexPad_length w v) as L. rewrite Eh in L. simpl in L. lia.
  - f_equal.
Qed.

Lemma bigintToHex_in_range (v : Z) :
  0 <= v < 2 ^ 256 -> bigintToHex v = Ret (hexPad 64 v).
Proof.
  intros Hv. unfold bigintToHex, numberToHex32.
  replace ((v <? 0) || (2 ^ 256 - 1 <? v)) with false; [reflexivity |].
  symmetry. apply orb_false_iff. split; apply Z.ltb_ge; lia.
Qed.

Lemma bigintToHex_out_of_range (v : Z) (h : string) :
  bigintToHex v = Ret h -> 0 <= v < 2 ^ 256.
Proof.
  unfold bigintToHex, numberToHex32.
  destruct ((v <? 0) || (2 ^ 256 - 1 <? v)) eqn:E; [discriminate |].
  intros _. apply orb_false_iff in E as [E1 E2].
  apply Z.ltb_ge in E1, E2. lia.
Qed.

(** ** Numbers *)

Lemma Number_of_BigInt_exact (n : Z) :
  0 <= n < 2 ^ 53 -> Number_of_BigInt n = n.
Proof.
  intros Hn. unfold Number_of_BigInt.
  replace (Z.log2 (Z.abs n) + 1 <=? 53) with true; [reflexivity |].
  symmetry. apply Z.leb_le. rewrite Z.abs_eq by lia.
  destruct (Z.eq_dec n 0) as [-> | Hnz]; [simpl; lia |].
  assert (Z.log2 n < 53) by (apply Z.log2_lt_pow2; lia). lia.
Qed.

(** ** The fields of a compact id (validateDomainAndId, validateAllocation) *)

Lemma resetPeriodIndex_div (id : Z) :
  0 <= id -> resetPeriodIndex id = (id / 2 ^ 252) mod 8.
Proof.
  intros Hid. unfold resetPeriodIndex.
  change 7 with (Z.ones 3).
  rewrite Z.land_ones, Z.shiftr_div_pow2 by lia.
  apply Number_of_BigInt_exact.
  change (2 ^ 3) with 8.
  pose proof (Z.mod_pos_bound (id / 2 ^ 252) 8). lia.
Qed.

Lemma allocatorIdOf_div (id : Z) :
  allocatorIdOf id = (id / 2 ^ 160) mod 2 ^ 92.
Proof.
  unfold allocatorIdOf.
  change (Z.shiftl 1 92 - 1) with (Z.ones 92).
  rewrite Z.land_ones, Z.shiftr_div_pow2 by lia. reflexivity.
Qed.

Lemma resetPeriodIndex_range (id : Z) : 0 <= id -> 0 <= resetPeriodIndex id < 8.
Proof.
  intros Hid. rewrite resetPeriodIndex_div by assumption.
  apply Z.mod_pos_bound. lia.
Qed.

(** C4, as the code decodes it.  For every 256-bit id, bit [i] of
    [resetPeriodIndex] is bit [252 + i] of the id for [i < 3] (bits
    254..252), bit [i] of the allocator id is bit [160 + i] of the id for
    [i < 92] (bits 251..160), and the id is made of bit 255, these two
    fields and its low 160 bits. *)
Theorem id_fields_as_decoded (id i : Z) :
  0 <= id < 2 ^ 256 -> 0 <= i ->
  Z.testbit (resetPeriodIndex id) i = (i <? 3) && Z.testbit id (252 + i)
  /\ Z.testbit (allocatorIdOf id) i = (i <? 92) && Z.testbit id (160 + i)
  /\ id = (id / 2 ^ 255) * 2 ^ 255 + resetPeriodIndex id * 2 ^ 252
          + allocatorIdOf id * 2 ^ 160 + id mod 2 ^ 160
  /\ 0 <= id / 2 ^ 255 <= 1.
Proof.
  intros Hid Hi. repeat split.
  - rewrite resetPeriodIndex_div by lia.
    change 8 with (2 ^ 3). rewrite <- Z.land_ones, <- Z.shiftr_div_pow2 by lia.
    rewrite Z.land_spec, Z.shiftr_spec, Z.testbit_ones_nonneg by lia.
    rewrite andb_comm. f_equal. f_equal. lia.
  - rewrite allocatorIdOf_div.
    rewrite <- Z.land_ones, <- Z.shiftr_div_pow2 by lia.
    rewrite Z.land_spec, Z.shiftr_spec, Z.testbit_ones_nonneg by lia.
    rewrite andb_comm. f_equal. f_equal. lia.
  - rewrite resetPeriodIndex_div, allocatorIdOf_div by lia.
    pose proof (Z.div_mod id (2 ^ 160)) as E1.
    pose proof (Z.div_mod (id / 2 ^ 160) (2 ^ 92)) as E2.
    pose proof (Z.div_mod (id / 2 ^ 252) 8) as E3.
    rewrite Z.div_div in E2 by lia.
    change (2 ^ 160 * 2 ^ 92) with (2 ^ 252) in E2.
    assert (E4 : id / 2 ^ 252 / 8 = id / 2 ^ 255).
    { rewrite Z.div_div by lia. reflexivity. }
    rewrite E4 in E3. lia.
  - apply Z.div_pos; lia.
  - assert (id / 2 ^ 255 < 2); [| lia].
    apply Z.div_lt_upper_bound; lia.
Qed.

Lemma id_fields_as_decoded_witness :
  (0 <= Demo.lockId < 2 ^ 256 /\ 0 <= 0) /\
  Z.testbit (resetPeriodIndex Demo.lockId) 0 = (0 <? 3) && Z.testbit Demo.lockId (252 + 0)
  /\ Z.testbit (allocatorIdOf Demo.lockId) 0 = (0 <? 92) && Z.testbit Demo.lockId (160 + 0)
  /\ Demo.lockId = (Demo.lockId / 2 ^ 255) * 2 ^ 255 + resetPeriodIndex Demo.lockId * 2 ^ 252
          + allocatorIdOf Demo.lockId * 2 ^ 160 + Demo.lockId mod 2 ^ 160
  /\ 0 <= Demo.lockId / 2 ^ 255 <= 1.
Proof.
  assert (H : 0 <= Demo.lockId < 2 ^ 256)
    by (vm_compute; split; [discriminate | reflexivity]).
  split; [split; [exact H | lia] |].
  apply (id_fields_as_decoded Demo.lockId 0); [exact H | lia].
Defined.

(** C4 as the specification words it does not hold: on the id with only
    bit 252 set the code reads reset period index 1 and allocator id 0,
    where the layout of the specification gives index 0 and allocator id
    [2^92]. *)
Lemma id_fields_not_as_specified :
  ~ (forall id : Z, 0 <= id < 2 ^ 256 ->
       resetPeriodIndex id = Layout.spec_resetPeriodIndex id
       /\ allocatorIdOf id = Layout.spec_allocatorId id).
Proof.
  intros Hall. destruct (Hall (2 ^ 252)) as [E _].
  - split; [discriminate | reflexivity].
  - vm_compute in E. discriminate.
Qed.

(** ** Addresses *)

Lemma digitValue_range (c : ascii) (d : Z) : digitValue c = Some d -> 0 <= d.
Proof.
  unfold digitValue. intros E.
  repeat match type of E with
         | (if ?b then _ else _) = _ => destruct b eqn:?
         end; try discriminate E; injection E as <-;
  repeat match goal with
         | H : (_ && _)%bool = true |- _ => apply andb_prop in H as [? ?]
         | H : (_ <=? _) = true |- _ => apply Z.leb_le in H
         end; lia.
Qed.

Lemma digitsValue_bounds (s : string) (acc v : Z) :
  0 <= acc -> digitsValue 16 acc s = Some v ->
  acc * 16 ^ Z.of_nat (String.length s) <= v
  < (acc + 1) * 16 ^ Z.of_nat (String.length s).
Proof.
  revert acc v. induction s as [| c s IH]; intros acc v Hacc Hs.
  - simpl in Hs. injection Hs as <-. simpl. lia.
  - cbn [digitsValue] in Hs.
    destruct (digitValue c) as [d |] eqn:Ed; [| discriminate Hs].
    destruct (d <? 16) eqn:Hd; [| discriminate Hs].
    apply Z.ltb_lt in Hd. pose proof (digitValue_range c d Ed) as Hd0.
    apply IH in Hs; [| lia].
    cbn [String.length]. rewrite Nat2Z.inj_succ, Z.pow_succ_r by lia.
    set (p := 16 ^ Z.of_nat (String.length s)) in *.
    assert (0 < p) by (apply Z.pow_pos_nonneg; lia).
    nia.
Qed.

Lemma getAddress_inv (s : string) (a : Z) :
  getAddress s = Ret a ->
  exists r, s = String "0" (String "x" r) /\ String.length r = 40%nat
            /\ digitsValue 16 0 r = Some a.
Proof.
  unfold getAddress. intros E.
  destruct s as [| c0 s']; [discriminate E |].
  destruct c0 as [[] [] [] [] [] [] [] []]; try discriminate E.
  destruct s' as [| c1 rest]; [discriminate E |].
  destruct c1 as [[] [] [] [] [] [] [] []]; try discriminate E.
  destruct (Nat.eqb (String.length rest) 40) eqn:El; [| discriminate E].
  apply Nat.eqb_eq in El.
  destruct (digitsValue 16 0 rest) as [v |] eqn:Ev; [| discriminate E].
  injection E as <-. exists rest. repeat split; assumption.
Qed.

Lemma getAddress_range (s : string) (a : Z) :
  getAddress s = Ret a -> 0 <= a < 2 ^ 160.
Proof.
  intros E. destruct (getAddress_inv s a E) as (r & _ & Hl & Hd).
  apply digitsValue_bounds in Hd; [| lia].
  rewrite Hl in Hd. change (16 ^ Z.of_nat 40) with (2 ^ 160) in Hd. lia.
Qed.

(** On a well-formed address [hexToBytes] reads the same twenty bytes. *)
Lemma addressToBytes_getAddress (s : string) (a : Z) :
  getAddress s = Ret a -> addressToBytes s = Ret a.
Proof.
  intros E. destruct (getAddress_inv s a E) as (r & -> & _ & Hd).
  unfold addressToBytes, hexToBytes. rewrite Hd. reflexivity.
Qed.

(** ** Splitting a nonce (validateNonce, storeNonce) *)

Lemma nonce_hex_split (n : Z) (h : string) :
  bigintToHex n = Ret h ->
  0 <= n < 2 ^ 256
  /\ sliceTo 40 h = hexPad 40 (n / 2 ^ 96)
  /\ sliceFrom 40 h = hexPad 24 n.
Proof.
  intros Hh. pose proof (bigintToHex_out_of_range n h Hh) as Hn.
  rewrite bigintToHex_in_range in Hh by assumption.
  assert (Eh : h = hexPad 64 n) by congruence.
  rewrite Eh. clear Eh. split; [exact Hn |].
  replace 64%nat with (40 + 24)%nat by reflexivity.
  rewrite hexPad_split.
  change (16 ^ Z.of_nat 24) with (2 ^ 96).
  split.
  - rewrite <- (hexPad_length 40 (n / 2 ^ 96)) at 1. apply sliceTo_app.
  - rewrite <- (hexPad_length 40 (n / 2 ^ 96)) at 1. apply sliceFrom_app.
Qed.

Lemma splitFragment_hexPad (n : Z) :
  0 <= n ->
  splitFragment (hexPad 24 n)
  = Ret (Number_of_BigInt ((n mod 2 ^ 96) / 2 ^ 32), n mod 2 ^ 32).
Proof.
  intros Hn. unfold splitFragment.
  rewrite BigInt_of_hexPad by lia.
  change (16 ^ Z.of_nat 24) with (2 ^ 96). cbn [bind].
  change 4294967295 with (Z.ones 32).
  rewrite Z.land_ones, Z.shiftr_div_pow2 by lia.
  assert (E : (n mod 2 ^ 96) mod 2 ^ 32 = n mod 2 ^ 32).
  { change (2 ^ 96) with (2 ^ 32 * 2 ^ 64).
    rewrite Z.rem_mul_r by lia.
    rewrite (Z.mul_comm (2 ^ 32) ((n / 2 ^ 32) mod 2 ^ 64)).
    rewrite Z.mod_add by lia.
    apply Z.mod_mod. lia. }
  rewrite E. rewrite (Number_of_BigInt_exact (n mod 2 ^ 32)); [reflexivity |].
  pose proof (Z.mod_pos_bound n (2 ^ 32)). lia.
Qed.

(** The packed layout: what the hex digits of [a * 2^96 + h * 2^32 + l]
    spell. *)
Lemma packed_fields (a h l : Z) :
  0 <= a -> 0 <= h < 2 ^ 64 -> 0 <= l < 2 ^ 32 ->
  let n := a * 2 ^ 96 + h * 2 ^ 32 + l in
  n / 2 ^ 96 = a /\ (n mod 2 ^ 96) / 2 ^ 32 = h /\ n mod 2 ^ 32 = l.
Proof.
  intros Ha Hh Hl n. subst n.
  assert (E1 : (a * 2 ^ 96 + h * 2 ^ 32 + l) / 2 ^ 96 = a).
  { symmetry. apply (Z.div_unique_pos _ _ a (h * 2 ^ 32 + l)); lia. }
  assert (E2 : (a * 2 ^ 96 + h * 2 ^ 32 + l) mod 2 ^ 96 = h * 2 ^ 32 + l).
  { symmetry. apply (Z.mod_unique_pos _ _ a (h * 2 ^ 32 + l)); lia. }
  repeat split.
  - exact E1.
  - rewrite E2. symmetry. apply (Z.div_unique_pos _ _ h l); lia.
  - symmetry. apply (Z.mod_unique_pos _ _ (a * 2 ^ 64 + h) l); lia.
Qed.

Lemma lor_above_is_sum (x f k : Z) :
  0 <= k -> 0 <= f < 2 ^ k -> Z.lor (x * 2 ^ k) f = x * 2 ^ k + f.
Proof.
  intros Hk Hf.
  assert (N : Z.land (x * 2 ^ k) f = 0).
  { destruct (Z.eq_dec f 0) as [-> | Hnz]; [apply Z.land_0_r |].
    apply Z.bits_inj'. intros j Hj. rewrite Z.land_spec, Z.bits_0.
    destruct (Z.ltb_spec j k).
    - rewrite Z.mul_pow2_bits_low by lia. reflexivity.
    - rewrite (Z.bits_above_log2 f j), andb_false_r; [reflexivity | lia |].
      assert (Z.log2 f < k) by (apply Z.log2_lt_pow2; [lia | apply Hf]). lia. }
  rewrite (Z.add_nocarry_lxor _ _ N). symmetry. apply Z.lxor_lor. exact N.
Qed.

(** The generated nonce is the sponsor's address above the 96-bit
    fragment. *)
Lemma nonce_lor_is_sum (a h l : Z) :
  0 <= h < 2 ^ 64 -> 0 <= l < 2 ^ 32 ->
  Z.lor (Z.shiftl a 96) (Z.lor (Z.shiftl h 32) l) = a * 2 ^ 96 + h * 2 ^ 32 + l.
Proof.
  intros Hh Hl.
  rewrite !Z.shiftl_mul_pow2 by lia.
  rewrite (lor_above_is_sum h l 32) by lia.
  rewrite (lor_above_is_sum a (h * 2 ^ 32 + l) 96) by lia.
  lia.
Qed.

(** ** Every validator answers *)

Lemma explained_valid : explained valid.
Proof. left. reflexivity. Qed.

Lemma explained_invalid (msg : string) : explained (invalid msg).
Proof. right. split; [reflexivity | now exists msg]. Qed.

Create HintDb validators.
#[local] Hint Resolve explained_valid explained_invalid : validators.

(** A [try]/[catch] whose handler returns a rejection always returns. *)
Lemma try_catch_answers (body : Outcome ValidationResult) (prefix : Exn -> string) :
  (forall r, body = Ret r -> explained r) ->
  exists r,
    try_catch body (fun e => Ret (invalid (prefix e))) = Ret r /\ explained r.
Proof.
  intros Hbody. destruct body as [r | e]; simpl.
  - exists r. split; [reflexivity | now apply Hbody].
  - eexists. split; [reflexivity | auto with validators].
Qed.

(** Splits the next [match] or [if] of an equation [H : ... = Ret r] whose
    left side is a chain of binds. *)
Ltac split_outcome H :=
  match type of H with
  | Ret _ = Ret _ => injection H as <-; auto with validators
  | Throw _ = Ret _ => discriminate H
  | (match ?x with _ => _ end) = Ret _ => destruct x eqn:?; split_outcome H
  | (if ?b then _ else _) = Ret _ => destruct b eqn:?; split_outcome H
  | (let '(_, _) := ?p in _) = Ret _ => destruct p; split_outcome H
  end.

Section Answers.

Context {D : Type} `{Database D}.
Variable env : Env.

Lemma validateStructure_answers (c : CompactMessage) :
  exists r, validateStructure c = Ret r /\ explained r.
Proof.
  unfold validateStructure. apply try_catch_answers.
  intros r Hr. unfold bind in Hr. split_outcome Hr.
Qed.

Lemma validateNonce_answers (n : Z) (sp chain : string) (db : D) :
  exists r, validateNonce n sp chain db = Ret r /\ explained r.
Proof.
  unfold validateNonce. apply try_catch_answers.
  intros r Hr. unfold bind in Hr. split_outcome Hr.
Qed.

Lemma validateExpiration_explained (e : Z) : explained (validateExpiration env e).
Proof.
  unfold validateExpiration.
  destruct (e <=? now env AtExpiration); [auto with validators |].
  destruct (e >? now env AtExpiration + 7200); auto with validators.
Qed.

Lemma validateDomainAndId_answers (i e : Z) (chain allocator : string) :
  exists r, validateDomainAndId env i e chain allocator = Ret r /\ explained r.
Proof.
  unfold validateDomainAndId. apply try_catch_answers.
  intros r Hr. split_outcome Hr.
Qed.

Lemma validateAllocation_answers (c : CompactMessage) (chain : string) (db : D) :
  exists r, validateAllocation env c chain db = Ret r /\ explained r.
Proof.
  unfold validateAllocation. apply try_catch_answers.
  intros r Hr. unfold bind in Hr. split_outcome Hr.
Qed.

(** C10.  Whatever the compact, the chain id, the database and the
    indexer do -- exceptions included -- [validateCompact] returns a
    result, and the result is an acceptance or a rejection with its error
    string; no exception reaches the caller. *)
Theorem validateCompact_total (c : CompactMessage) (chain : string) (db : D) :
  exists r, validateCompact env c chain db = Ret r /\ explained r.
Proof.
  unfold validateCompact. apply try_catch_answers.
  intros r Hr.
  destruct (negb (canonicalChainId env chain)); [split_outcome Hr |].
  destruct (validateStructure_answers c) as (rs & Es & Xs).
  rewrite Es in Hr. cbn [bind] in Hr.
  destruct (negb (isValid rs)); [injection Hr as <-; exact Xs |].
  assert (Hn : exists rn,
             match nonce c with
             | Some n => validateNonce n (sponsor c) chain db
             | None => Ret valid
             end = Ret rn /\ explained rn).
  { destruct (nonce c) as [n |].
    - apply validateNonce_answers.
    - exists valid. split; [reflexivity | apply explained_valid]. }
  destruct Hn as (rn & En & Xn). rewrite En in Hr. cbn [bind] in Hr.
  destruct (negb (isValid rn)); [injection Hr as <-; exact Xn |].
  destruct (negb (isValid (validateExpiration env (expires c))));
    [injection Hr as <-; apply validateExpiration_explained |].
  destruct (validateDomainAndId_answers (id c) (expires c) chain (ALLOCATOR_ADDRESS env))
    as (rd & Ed & Xd).
  rewrite Ed in Hr. cbn [bind] in Hr.
  destruct (negb (isValid rd)); [injection Hr as <-; exact Xd |].
  destruct (validateAllocation_answers c chain db) as (ra & Ea & Xa).
  rewrite Ea in Hr. cbn [bind] in Hr.
  destruct (negb (isValid ra)); [injection Hr as <-; exact Xa |].
  injection Hr as <-. apply explained_valid.
Qed.

(** What an acceptance by [validateCompact] says of each stage. *)
Lemma validateCompact_accepts (c : CompactMessage) (chain : string) (db : D)
    (r : ValidationResult) :
  validateCompact env c chain db = Ret r -> isValid r = true ->
  canonicalChainId env chain = true
  /\ (exists rs, validateStructure c = Ret rs /\ isValid rs = true)
  /\ (forall n, nonce c = Some n ->
        exists rn, validateNonce n (sponsor c) chain db = Ret rn /\ isValid rn = true)
  /\ isValid (validateExpiration env (expires c)) = true
  /\ (exists rd, validateDomainAndId env (id c) (expires c) chain (ALLOCATOR_ADDRESS env)
                 = Ret rd /\ isValid rd = true)
  /\ (exists ra, validateAllocation env c chain db = Ret ra /\ isValid ra = true).
Proof.
  unfold validateCompact. intros Hr Hv.
  destruct (canonicalChainId env chain) eqn:Ec; cbn [negb] in Hr;
    [| injection Hr as <-; discriminate Hv].
  destruct (validateStructure c) as [rs | e] eqn:Es; cbn [bind try_catch] in Hr;
    [| injection Hr as <-; discriminate Hv].
  destruct (isValid rs) eqn:Vs; cbn [negb] in Hr;
    [| cbn [try_catch] in Hr; injection Hr as <-; congruence].
  destruct (match nonce c with
            | Some n => validateNonce n (sponsor c) chain db
            | None => Ret valid
            end) as [rn | e] eqn:En; cbn [bind try_catch] in Hr;
    [| injection Hr as <-; discriminate Hv].
  destruct (isValid rn) eqn:Vn; cbn [negb] in Hr;
    [| cbn [try_catch] in Hr; injection Hr as <-; congruence].
  destruct (isValid (validateExpiration env (expires c))) eqn:Ve; cbn [negb] in Hr;
    [| cbn [try_catch] in Hr; injection Hr as <-; congruence].
  destruct (validateDomainAndId env (id c) (expires c) chain (ALLOCATOR_ADDRESS env))
    as [rd | e] eqn:Ed; cbn [bind try_catch] in Hr;
    [| injection Hr as <-; discriminate Hv].
  destruct (isValid rd) eqn:Vd; cbn [negb] in Hr;
    [| cbn [try_catch] in Hr; injection Hr as <-; congruence].
  destruct (validateAllocation env c chain db) as [ra | e] eqn:Ea;
    cbn [bind try_catch] in Hr; [| injection Hr as <-; discriminate Hv].
  destruct (isValid ra) eqn:Va; cbn [negb] in Hr;
    [| cbn [try_catch] in Hr; injection Hr as <-; congruence].
  repeat split; eauto.
  intros n Hn. rewrite Hn in En. eauto.
Qed.

(** The facts behind an acceptance by [validateAllocation]. *)
Lemma validateAllocation_accepts (c : CompactMessage) (chain : string) (db : D)
    (r : ValidationResult) :
  validateAllocation env c chain db = Ret r -> isValid r = true ->
  exists response lock locks b pending a th allocated amt,
    getCompactDetails env
      {| query_allocator := ALLOCATOR_ADDRESS env; query_sponsor := sponsor c;
         query_lockId := BigInt_toString (id c); query_chainId := chain |} = Ret response
    /\ account_resourceLocks response = lock :: locks
    /\ withdrawalStatus lock = 0
    /\ (exists sc scs, allocator_supportedChains response = sc :: scs
                       /\ BigInt_of_string (allocatorId sc) = Ret (allocatorIdOf (id c)))
    /\ sumBigInt (map delta (accountDeltas response)) = Ret pending
    /\ BigInt_of_string (balance lock) = Ret b
    /\ getAddress (sponsor c) = Ret a
    /\ 0 <= id c < 2 ^ 256
    /\ getFinalizationThreshold env chain = Ret th
    /\ getAllocatedBalance env db a chain (hexPad 64 (id c))
         (map claimHash (account_claims response)) = Ret allocated
    /\ BigInt_of_string (amount c) = Ret amt
    /\ allocated + amt <= Z.max 0 (b - pending).
Proof.
  unfold validateAllocation. intros Er Hv.
  destruct (getCompactDetails env _) as [response | e] eqn:Eresp; cbn [bind try_catch] in Er;
    [| injection Er as <-; discriminate Hv].
  destruct (account_resourceLocks response) as [| lock locks] eqn:Elocks;
    [cbn [try_catch] in Er; injection Er as <-; discriminate Hv |].
  destruct (Z.eqb_spec (withdrawalStatus lock) 0) as [Hst | Hst]; cbn [negb] in Er;
    [| cbn [try_catch] in Er; injection Er as <-; discriminate Hv].
  destruct (allocator_supportedChains response) as [| sc scs] eqn:Echains;
    cbn [hd_error option_map] in Er;
    [cbn [try_catch] in Er; injection Er as <-; discriminate Hv |].
  destruct (allocatorId sc) as [| ch rest] eqn:Eg;
    [cbn [try_catch] in Er; injection Er as <-; discriminate Hv |].
  destruct (BigInt_of_string (String ch rest)) as [g | e] eqn:Egv; cbn [bind try_catch] in Er;
    [| injection Er as <-; discriminate Hv].
  destruct (Z.eqb_spec g (allocatorIdOf (id c))) as [Hg | Hg]; cbn [negb] in Er;
    [| cbn [try_catch] in Er; injection Er as <-; discriminate Hv].
  destruct (sumBigInt (map delta (accountDeltas response))) as [pending | e] eqn:Ep;
    cbn [bind try_catch] in Er; [| injection Er as <-; discriminate Hv].
  destruct (BigInt_of_string (balance lock)) as [b | e] eqn:Eb;
    cbn [bind try_catch] in Er; [| injection Er as <-; discriminate Hv].
  destruct (getAddress (sponsor c)) as [a | e] eqn:Ea;
    cbn [bind try_catch] in Er; [| injection Er as <-; discriminate Hv].
  destruct (bigintToHex (id c)) as [h | e] eqn:Eh;
    cbn [bind try_catch] in Er; [| injection Er as <-; discriminate Hv].
  pose proof (bigintToHex_out_of_range _ _ Eh) as Hid.
  rewrite bigintToHex_in_range in Eh by assumption.
  assert (Ehh : h = hexPad 64 (id c)) by congruence. rewrite Ehh in Er. clear Eh Ehh.
  destruct (getAllocatedBalance env db a chain (hexPad 64 (id c)) _)
    as [allocated | e] eqn:Eal; cbn [bind try_catch] in Er;
    [| injection Er as <-; discriminate Hv].
  destruct (BigInt_of_string (amount c)) as [amt | e] eqn:Eamt;
    cbn [bind try_catch] in Er; [| injection Er as <-; discriminate Hv].
  assert (Eth : exists th, getFinalizationThreshold env chain = Ret th).
  { unfold getAllocatedBalance in Eal.
    destruct (getFinalizationThreshold env chain) as [th | e]; [now exists th |].
    discriminate Eal. }
  destruct Eth as (th & Eth).
  destruct (Z.ltb_spec (if b >? pending then b - pending else 0) (allocated + amt))
    as [Hlt | Hge]; [injection Er as <-; discriminate Hv |].
  exists response, lock, locks, b, pending, a, th, allocated, amt.
  repeat split; try assumption; try lia.
  - exists sc, scs. split; [exact Echains |]. rewrite Eg. congruence.
  - destruct (Z.gtb_spec b pending); lia.
Qed.

(** A nonce that passes [validateNonce] is a 256-bit number and spells the
    sponsor in its upper 160 bits; the test comes before the database is
    asked. *)
Lemma validateNonce_accepts (n : Z) (sp chain : string) (db : D)
    (r : ValidationResult) :
  validateNonce n sp chain db = Ret r -> isValid r = true ->
  0 <= n < 2 ^ 256
  /\ (exists a, getAddress sp = Ret a /\ n / 2 ^ 96 = a).
Proof.
  unfold validateNonce. intros Hr Hv.
  destruct (bigintToHex n) as [h | e] eqn:Eh; cbn [bind try_catch] in Hr;
    [| injection Hr as <-; discriminate Hv].
  destruct (nonce_hex_split n h Eh) as (Hn & Eto & Efrom).
  rewrite Eto, Efrom in Hr.
  destruct (getAddress sp) as [a | e] eqn:Ea; cbn [bind try_catch] in Hr;
    [| injection Hr as <-; discriminate Hv].
  unfold lowerHex40 in Hr.
  pose proof (getAddress_range sp a Ea) as Ha.
  rewrite hexPad_eqb in Hr by (try apply Z.div_pos; lia).
  change (16 ^ Z.of_nat 40) with (2 ^ 160) in Hr.
  destruct ((n / 2 ^ 96) mod 2 ^ 160 =? a mod 2 ^ 160) eqn:Esp; cbn [negb] in Hr;
    [| cbn [try_catch] in Hr; injection Hr as <-; discriminate Hv].
  apply Z.eqb_eq in Esp.
  split; [exact Hn |].
  exists a. split; [reflexivity |].
  assert (0 <= n / 2 ^ 96 < 2 ^ 160).
  { split; [apply Z.div_pos; lia | apply Z.div_lt_upper_bound; lia]. }
  rewrite !Z.mod_small in Esp by lia. exact Esp.
Qed.

End Answers.

(** ** submitCompact: validation without a database *)

Lemma getAllocatedBalance_undefined (env : Env) (a : Z) (chain lockId : string)
    (claims : list string) :
  exists e, getAllocatedBalance env undefined a chain lockId claims = Throw e.
Proof.
  unfold getAllocatedBalance.
  destruct (getFinalizationThreshold env chain) as [th | e]; cbn [bind].
  - destruct claims; eexists; reflexivity.
  - eexists. reflexivity.
Qed.

(** With [undefined] for a database [validateCompact] accepts nothing:
    its last stage, which every acceptance goes through, asks the
    database for the allocated balance. *)
Lemma validateCompact_undefined (env : Env) (c : CompactMessage) (chain : string)
    (r : ValidationResult) :
  validateCompact env c chain undefined = Ret r -> isValid r = false.
Proof.
  intros Hr. destruct (isValid r) eqn:Hv; [| reflexivity].
  destruct (validateCompact_accepts env c chain undefined r Hr Hv)
    as (_ & _ & _ & _ & _ & (ra & Era & Vra)).
  destruct (validateAllocation_accepts env c chain undefined ra Era Vra)
    as (response & lock & locks & b & pending & a & th & allocated & amt & Hfacts).
  destruct Hfacts as (_ & _ & _ & _ & _ & _ & _ & _ & _ & Eal & _).
  destruct (getAllocatedBalance_undefined env a chain (hexPad 64 (id c))
              (map claimHash (account_claims response))) as (e & Ee).
  congruence.
Qed.

Lemma submitCompact_throws {D : Type} `{Database D} (env : Env) (server : D)
    (submission : CompactSubmission) (sponsorAddress : string) :
  exists e, submitCompact env server submission sponsorAddress = Throw e.
Proof.
  unfold submitCompact.
  destruct (getAddress (sponsor (compact submission))) as [a1 | e1];
    [| eexists; reflexivity].
  destruct (getAddress sponsorAddress) as [a2 | e2]; cbn [bind];
    [| eexists; reflexivity].
  destruct (negb (a1 =? a2)); [eexists; reflexivity |].
  destruct (validateCompact env (compact submission) (chainId submission) undefined)
    as [r | e] eqn:Ev; cbn [bind]; [| eexists; reflexivity].
  rewrite (validateCompact_undefined env _ _ r Ev). cbn [negb].
  eexists. reflexivity.
Qed.

(** ** Caller-supplied nonces and the low word *)

Lemma testbit_31_of_low (n : Z) :
  0 <= n mod 2 ^ 32 <= 2 ^ 31 - 1 -> Z.testbit n 31 = false.
Proof.
  intros Hl.
  rewrite <- (Z.mod_pow2_bits_low n 32 31) by lia.
  destruct (Z.eq_dec (n mod 2 ^ 32) 0) as [-> | Hnz]; [apply Z.bits_0 |].
  apply Z.bits_above_log2; [lia |].
  apply Z.log2_lt_pow2; lia.
Qed.


(** ** What the split does to a packed nonce *)

Lemma hexToBytes_hexPad (w : nat) (v : Z) :
  0 <= v -> hexToBytes (toHexString (hexPad w v)) = Ret (v mod 16 ^ Z.of_nat w).
Proof.
  intros Hv. unfold hexToBytes, toHexString.
  change ("0x" ++ hexPad w v)%string with (String "0" (String "x" (hexPad w v))).
  cbv iota beta. rewrite digitsValue_hexPad by assumption. f_equal.
Qed.

(** For a high word below [2^53] the split of validateNonce and storeNonce
    gives back the three fields that were packed. *)
Lemma split_recovers_narrow_high (a h l : Z) :
  0 <= a < 2 ^ 160 -> 0 <= h < 2 ^ 53 -> 0 <= l < 2 ^ 32 ->
  exists hex,
    bigintToHex (a * 2 ^ 96 + h * 2 ^ 32 + l) = Ret hex
    /\ hexToBytes (toHexString (sliceTo 40 hex)) = Ret a
    /\ splitFragment (sliceFrom 40 hex) = Ret (h, l).
Proof.
  intros Ha Hh Hl.
  destruct (packed_fields a h l) as (E1 & E2 & E3); try lia.
  cbv zeta in E1, E2, E3.
  set (n := a * 2 ^ 96 + h * 2 ^ 32 + l) in *.
  assert (Hn : 0 <= n < 2 ^ 256) by (subst n; lia).
  exists (hexPad 64 n). split; [now apply bigintToHex_in_range |].
  destruct (nonce_hex_split n _ (bigintToHex_in_range n Hn)) as (_ & Eto & Efrom).
  rewrite Eto, Efrom, E1. split.
  - rewrite hexToBytes_hexPad by lia.
    change (16 ^ Z.of_nat 40) with (2 ^ 160). rewrite Z.mod_small by lia. reflexivity.
  - rewrite splitFragment_hexPad by lia. rewrite E2, E3.
    rewrite Number_of_BigInt_exact by lia. reflexivity.
Qed.

(** C9, at a high word of 54 bits.  Storing the nonce packed from
    (sponsor, [2^53 + 1], 0) writes the row (sponsor, [2^53], 0): the high
    word went through a JavaScript number and was rounded.  The nonce
    packed from (sponsor, [2^53], 0), which was never stored, is then
    reported as used. *)
Theorem split_rounds_wide_high :
  storeNonce Demo.funded Demo.wideNonce "1" Demo.emptyTables = Ret Demo.roundedStore
  /\ validateNonce Demo.roundNonce Demo.sponsorAddress "1" Demo.roundedStore
     = Ret (invalid "Nonce has already been used").
Proof. split; vm_compute; reflexivity. Qed.

(** ** Signing (crypto.ts) *)

Lemma string_length_0x (d : string) :
  String.length ("0x" ++ d) = S (S (String.length d)).
Proof. reflexivity. Qed.

(** C3, as the code signs.  For every 32-byte digest, [signCompact] asks
    the account for a signature over the keccak256 hash of the digest
    behind the prefix [\x19Ethereum Signed Message:\n32] -- 28 bytes,
    here in hex -- and not over the digest itself. *)
Theorem signCompact_signs_prefixed_digest (env : Env) (d : string) (chain : Z) :
  String.length d = 64%nat ->
  signCompact env ("0x" ++ d) chain
  = sign env (keccak256 env
      ("0x19457468657265756d205369676e6564204d6573736167653a0a3332" ++ d)).
Proof.
  intros Hd. unfold signCompact, signMessage_raw. f_equal. f_equal.
  unfold toPrefixedMessage, size.
  rewrite string_length_0x, Hd.
  change ("0x" ++ d)%string with (String "0" (String "x" d)).
  vm_compute. reflexivity.
Qed.

Lemma signCompact_signs_prefixed_digest_witness :
  String.length "1234567890123456789012345678901234567890123456789012345678901234" = 64%nat
  /\ signCompact Demo.funded Demo.digest 1
     = sign Demo.funded (keccak256 Demo.funded
         ("0x19457468657265756d205369676e6564204d6573736167653a0a3332" ++
          "1234567890123456789012345678901234567890123456789012345678901234")).
Proof.
  split; [reflexivity |].
  apply (signCompact_signs_prefixed_digest Demo.funded
           "1234567890123456789012345678901234567890123456789012345678901234" 1).
  reflexivity.
Defined.

(** With the stand-in primitives of the demo deployment the signature
    returned for a digest differs from the account's signature over that
    digest. *)
Lemma signCompact_is_not_raw_signature :
  signCompact Demo.funded Demo.digest 1 <> sign Demo.funded Demo.digest.
Proof. vm_compute. discriminate. Qed.

(** ** The schema of the claim hash (crypto.ts) *)

(** The schema follows the truthiness of the two witness fields. *)
Lemma generateClaimHash_schema (env : Env) (c : CompactMessage) (chain : Z) :
  generateClaimHash env c chain
  = (a1 <- getAddress (arbiter c) ;;
     a2 <- getAddress (sponsor c) ;;
     amount_ <- BigInt_of_string (amount c) ;;
     hashTypedData env
       {| td_domain := DOMAIN chain;
          td_types := if falsy (witnessTypeString c) || falsy (witnessHash c)
                      then COMPACT_TYPES else COMPACT_WITH_WITNESS_TYPES;
          td_primaryType := "Compact";
          td_message :=
            if falsy (witnessTypeString c) || falsy (witnessHash c)
            then baseMessage a1 a2 c amount_
            else (baseMessage a1 a2 c amount_ ++
                  [ ("witnessTypeString",
                     VString (match witnessTypeString c with Some s => s | None => "" end));
                    ("witnessHash",
                     VBytes32 (match witnessHash c with Some s => s | None => "" end)) ])%list
       |}).
Proof.
  unfold generateClaimHash.
  destruct (getAddress (arbiter c)); [| reflexivity].
  destruct (getAddress (sponsor c)); [| reflexivity].
  cbn [bind].
  destruct (falsy (witnessTypeString c) || falsy (witnessHash c)); reflexivity.
Qed.

(** C5, at a witness pair that is present with an empty type string.
    Both fields are non-null, so the structural check sees a coherent
    witness; the claim hash is nevertheless computed with the witness-free
    schema, and equals the hash of the same compact without any witness:
    the witness hash takes no part in the signed digest. *)
Theorem empty_type_string_hashes_without_witness
    (env : Env) (arb sp amt h : string) (n : option Z) (e i chain : Z) :
  let withPair := {| arbiter := arb; sponsor := sp; nonce := n; expires := e; id := i;
                     amount := amt; witnessTypeString := Some "";
                     witnessHash := Some h |} in
  let without := {| arbiter := arb; sponsor := sp; nonce := n; expires := e; id := i;
                    amount := amt; witnessTypeString := None; witnessHash := None |} in
  validateStructure withPair = validateStructure without
  /\ generateClaimHash env withPair chain = generateClaimHash env without chain
  /\ generateClaimHash env withPair chain
     = (a1 <- getAddress arb ;;
        a2 <- getAddress sp ;;
        amount_ <- BigInt_of_string amt ;;
        hashTypedData env
          {| td_domain := DOMAIN chain;
             td_types := COMPACT_TYPES;
             td_primaryType := "Compact";
             td_message := baseMessage a1 a2 without amount_ |}).
Proof.
  intros withPair without. split; [reflexivity |].
  split; [reflexivity |].
  rewrite generateClaimHash_schema. reflexivity.
Qed.

(** ** What submitCompact does with a submission (compact.ts) *)

(** The outcome of [submitCompact] is the same on every database: what
    is read before [storeCompact] is read from [undefined]. *)
Lemma submitCompact_ignores_database {D : Type} `{Database D} (env : Env)
    (server1 server2 : D) (submission : CompactSubmission) (sponsorAddress : string) :
  submitCompact env server1 submission sponsorAddress
  = submitCompact env server2 submission sponsorAddress.
Proof.
  unfold submitCompact.
  destruct (getAddress (sponsor (compact submission))) as [a1 | e1]; [| reflexivity].
  destruct (getAddress sponsorAddress) as [a2 | e2]; cbn [bind]; [| reflexivity].
  destruct (negb (a1 =? a2)); [reflexivity |].
  destruct (validateCompact env (compact submission) (chainId submission) undefined)
    as [r | e] eqn:Ev; cbn [bind]; [| reflexivity].
  rewrite (validateCompact_undefined env _ _ r Ev). reflexivity.
Qed.

(** C1, on the empty store.  The compact with the sponsor's nonce (0, 0)
    passes [validateCompact] when that is given the store, so it is a
    submission the service is to admit.  [submitCompact] gives
    [validateCompact] no database: the nonce stage fails on reading
    [db.query], and the submission is thrown out with that error.  No
    submission at all gets past the validation, so [submitCompact] writes
    neither a nonce nor a compact. *)
Theorem submitCompact_admits_nothing :
  validateCompact Demo.funded (Demo.compactWith (Some Demo.firstNonce)) "1"
    Demo.emptyTables = Ret valid
  /\ submitCompact Demo.funded Demo.emptyTables
       (Demo.submissionWith (Some Demo.firstNonce)) Demo.sponsorAddress
     = Throw (ErrorObj
         "Nonce validation error: Cannot read properties of undefined (reading 'query')")
  /\ (forall (env : Env) (t : Tables) (submission : CompactSubmission)
             (sponsorAddress : string),
        exists e, submitCompact env t submission sponsorAddress = Throw e).
Proof.
  split; [vm_compute; reflexivity |].
  split; [vm_compute; reflexivity |].
  intros env t submission sponsorAddress. apply submitCompact_throws.
Qed.

(** C2, on the empty store.  [generateNonce] would hand out the sponsor's
    nonce (0, 0), and the compact carrying that nonce passes
    [validateCompact] on the store.  [submitCompact] of the compact with a
    null nonce generates nothing: validation skips the nonce stage and
    fails in the allocation stage on reading [db.query] of [undefined],
    and the submission is thrown out.  Whatever the ledger holds, the
    outcome is the same: the ledger is not read. *)
Theorem null_nonce_is_not_resolved :
  generateNonce Demo.sponsorAddress "1" Demo.emptyTables = Ret Demo.firstNonce
  /\ validateCompact Demo.funded (Demo.compactWith (Some Demo.firstNonce)) "1"
       Demo.emptyTables = Ret valid
  /\ submitCompact Demo.funded Demo.emptyTables (Demo.submissionWith None)
       Demo.sponsorAddress
     = Throw (ErrorObj
         "Allocation validation error: Cannot read properties of undefined (reading 'query')")
  /\ (forall (env : Env) (t1 t2 : Tables) (submission : CompactSubmission)
             (sponsorAddress : string),
        submitCompact env t1 submission sponsorAddress
        = submitCompact env t2 submission sponsorAddress).
Proof.
  split; [vm_compute; reflexivity |].
  split; [vm_compute; reflexivity |].
  split; [vm_compute; reflexivity |].
  intros env t1 t2 submission sponsorAddress. apply submitCompact_ignores_database.
Qed.

(** ** The allocation stage (validateAllocation, getAllocatedBalance) *)

(** On the tables, [getAllocatedBalance] is the specification's
    [locallyAllocated]: each of its two queries selects the outstanding
    compacts of the sponsor, chain and lock. *)
Lemma getAllocatedBalance_locallyAllocated (env : Env) (t : Tables) (a : Z)
    (chain : string) (lock th : Z) (claims : list string) :
  getFinalizationThreshold env chain = Ret th ->
  getAllocatedBalance env t a chain (hexPad 64 lock) claims
  = Reconciler.locallyAllocated a chain lock (now env AtBalance) th claims t.
Proof.
  intros Hth. unfold getAllocatedBalance, Reconciler.locallyAllocated.
  rewrite Hth. cbn [bind].
  assert (E : forall r,
             unfinalized a chain (hexPad 64 lock) (now env AtBalance) th r
             && notProcessed claims r
             = Reconciler.sameLock a chain lock r
               && Reconciler.outstanding (now env AtBalance) th claims r).
  { intros r.
    unfold unfinalized, notProcessed, sponsorIs, lockIs,
      Reconciler.sameLock, Reconciler.outstanding.
    destruct (row_allocation r) as [cols |]; [| reflexivity].
    destruct (String.eqb (col_sponsor cols) ("0x" ++ lowerHex40 a)),
      (String.eqb (row_chain_id r) chain),
      (String.eqb (col_compact_id cols) (hexPad 64 lock)),
      (now env AtBalance <? col_expires cols + th),
      (existsb (String.eqb (col_claim_hash cols)) claims); reflexivity. }
  destruct claims as [| cl claims'].
  - cbn [selectAllocated Tables_Database]. unfold tbl_selectAllocated. cbn [bind].
    f_equal. f_equal. apply filter_ext. intros r. rewrite <- E.
    unfold notProcessed, unfinalized.
    destruct (row_allocation r); [| reflexivity].
    cbn [existsb negb]. symmetry. apply andb_true_r.
  - cbn [selectAllocatedExcluding Tables_Database].
    unfold tbl_selectAllocatedExcluding. cbn [bind].
    f_equal. f_equal. apply filter_ext. exact E.
Qed.

(** The three guards of the stage. *)
Lemma validateAllocation_guards {D : Type} `{Database D} (env : Env) (db : D)
    (c : CompactMessage) (chain : string) (response : CompactDetailsResponse) :
  getCompactDetails env
    {| query_allocator := ALLOCATOR_ADDRESS env; query_sponsor := sponsor c;
       query_lockId := BigInt_toString (id c); query_chainId := chain |} = Ret response ->
  (account_resourceLocks response = [] ->
   validateAllocation env c chain db = Ret (invalid "Resource lock not found"))
  /\ (forall lock locks,
        account_resourceLocks response = lock :: locks -> withdrawalStatus lock <> 0 ->
        validateAllocation env c chain db
        = Ret (invalid "Resource lock has forced withdrawals enabled"))
  /\ (forall lock locks,
        account_resourceLocks response = lock :: locks -> withdrawalStatus lock = 0 ->
        (allocator_supportedChains response = []
         \/ exists sc scs,
              allocator_supportedChains response = sc :: scs
              /\ (allocatorId sc = ""
                  \/ exists g, BigInt_of_string (allocatorId sc) = Ret g
                               /\ g <> allocatorIdOf (id c))) ->
        validateAllocation env c chain db = Ret (invalid "Invalid allocator ID")).
Proof.
  intros Hresp. split; [| split].
  - intros Hlocks. unfold validateAllocation. rewrite Hresp. cbn [bind].
    rewrite Hlocks. reflexivity.
  - intros lock locks Hlocks Hstatus. unfold validateAllocation.
    rewrite Hresp. cbn [bind]. rewrite Hlocks.
    destruct (Z.eqb_spec (withdrawalStatus lock) 0); [contradiction | reflexivity].
  - intros lock locks Hlocks Hstatus Hmis. unfold validateAllocation.
    rewrite Hresp. cbn [bind]. rewrite Hlocks, Hstatus. cbn [Z.eqb negb].
    destruct Hmis as [Hnone | (sc & scs & Hchains & Hbad)].
    + rewrite Hnone. reflexivity.
    + rewrite Hchains. cbn [hd_error option_map].
      destruct Hbad as [Hempty | (g & Hg & Hne)].
      * rewrite Hempty. reflexivity.
      * destruct (allocatorId sc) as [| ch rest] eqn:Eg; [reflexivity |].
        rewrite Hg. cbn [bind].
        destruct (Z.eqb_spec g (allocatorIdOf (id c))); [contradiction | reflexivity].
Qed.

(** C7.  Once the indexer has answered, the allocation stage rejects a
    missing lock, a lock with forced withdrawals and an allocator id that
    is absent, empty or different from the one in the compact id, each
    with its own error and before any balance is looked at.  Behind these
    guards, when every number involved parses, it accepts exactly when
    [max(0, balance - sum of deltas)] is at least the sum of the amounts
    of the outstanding stored compacts of the sponsor, chain and lock plus
    the amount of the compact; otherwise it rejects with the insufficient
    balance message, which carries both amounts. *)
Theorem allocation_accepts_iff_balance (env : Env) (t : Tables) (c : CompactMessage)
    (chain : string) (response : CompactDetailsResponse) :
  getCompactDetails env
    {| query_allocator := ALLOCATOR_ADDRESS env; query_sponsor := sponsor c;
       query_lockId := BigInt_toString (id c); query_chainId := chain |} = Ret response ->
  (account_resourceLocks response = [] ->
   validateAllocation env c chain t = Ret (invalid "Resource lock not found"))
  /\ (forall lock locks,
        account_resourceLocks response = lock :: locks -> withdrawalStatus lock <> 0 ->
        validateAllocation env c chain t
        = Ret (invalid "Resource lock has forced withdrawals enabled"))
  /\ (forall lock locks,
        account_resourceLocks response = lock :: locks -> withdrawalStatus lock = 0 ->
        (allocator_supportedChains response = []
         \/ exists sc scs,
              allocator_supportedChains response = sc :: scs
              /\ (allocatorId sc = ""
                  \/ exists g, BigInt_of_string (allocatorId sc) = Ret g
                               /\ g <> allocatorIdOf (id c))) ->
        validateAllocation env c chain t = Ret (invalid "Invalid allocator ID"))
  /\ (forall lock locks sc scs b pending a th allocated amt,
        account_resourceLocks response = lock :: locks ->
        withdrawalStatus lock = 0 ->
        allocator_supportedChains response = sc :: scs ->
        allocatorId sc <> "" ->
        BigInt_of_string (allocatorId sc) = Ret (allocatorIdOf (id c)) ->
        sumBigInt (map delta (accountDeltas response)) = Ret pending ->
        BigInt_of_string (balance lock) = Ret b ->
        getAddress (sponsor c) = Ret a ->
        0 <= id c < 2 ^ 256 ->
        getFinalizationThreshold env chain = Ret th ->
        Reconciler.locallyAllocated a chain (id c) (now env AtBalance) th
          (map claimHash (account_claims response)) t = Ret allocated ->
        BigInt_of_string (amount c) = Ret amt ->
        let have := Reconciler.snapshotAllocatable b pending in
        let need := allocated + amt in
        exists r,
          validateAllocation env c chain t = Ret r
          /\ (isValid r = true <-> need <= have)
          /\ (need <= have -> r = valid)
          /\ (have < need -> r = invalid (insufficientMessage have need))).
Proof.
  intros Hresp.
  destruct (validateAllocation_guards env t c chain response Hresp) as (G1 & G2 & G3).
  split; [exact G1 |]. split; [exact G2 |]. split; [exact G3 |].
  intros lock locks sc scs b pending a th allocated amt
    Hlocks Hstatus Hchains Hne Hg Hpending Hb Ha Hid Hth Halloc Hamt have need.
  unfold validateAllocation. rewrite Hresp. cbn [bind]. rewrite Hlocks, Hstatus.
  cbn [Z.eqb negb]. rewrite Hchains. cbn [hd_error option_map].
  destruct (allocatorId sc) as [| ch rest] eqn:Eg; [contradiction Hne; reflexivity |].
  rewrite Hg. cbn [bind]. rewrite Z.eqb_refl. cbn [negb].
  rewrite Hpending. cbn [bind]. rewrite Hb. cbn [bind]. rewrite Ha. cbn [bind].
  rewrite (bigintToHex_in_range _ Hid). cbn [bind].
  rewrite (getAllocatedBalance_locallyAllocated env t a chain (id c) th _ Hth).
  rewrite Halloc. cbn [bind]. rewrite Hamt. cbn [bind].
  assert (Ehave : (if b >? pending then b - pending else 0) = have).
  { subst have. unfold Reconciler.snapshotAllocatable.
    destruct (Z.gtb_spec b pending); lia. }
  rewrite Ehave. fold need.
  destruct (Z.ltb_spec have need) as [Hlt | Hge]; cbn [try_catch].
  - eexists. split; [reflexivity |]. cbn [isValid invalid].
    split; [split; [discriminate | lia] |]. split; [lia | reflexivity].
  - eexists. split; [reflexivity |]. cbn [isValid valid].
    split; [split; [lia | reflexivity] |]. split; [reflexivity | lia].
Qed.

(** On a store with five compacts of which one is outstanding for the
    lock, two deltas and one processed claim: accepted with ten tokens in
    the lock, refused with three, and refused for the forced withdrawal
    whatever the balance. *)
Lemma allocation_accepts_iff_balance_witness :
  (exists r,
     validateAllocation (Scenario.busy "10000000000000000000" 0)
       (Demo.compactWith (Some Demo.firstNonce)) "1" Scenario.busyTables = Ret r
     /\ (isValid r = true
         <-> 2000000000000000000 + 1000000000000000000
             <= Reconciler.snapshotAllocatable 10000000000000000000 500000000000000000)
     /\ r = valid)
  /\ validateAllocation (Scenario.busy "3000000000000000000" 0)
       (Demo.compactWith (Some Demo.firstNonce)) "1" Scenario.busyTables
     = Ret (invalid (insufficientMessage 2500000000000000000 3000000000000000000))
  /\ validateAllocation (Scenario.busy "10000000000000000000" 1)
       (Demo.compactWith (Some Demo.firstNonce)) "1" Scenario.busyTables
     = Ret (invalid "Resource lock has forced withdrawals enabled").
Proof.
  split; [| split].
  - destruct (allocation_accepts_iff_balance (Scenario.busy "10000000000000000000" 0)
                Scenario.busyTables (Demo.compactWith (Some Demo.firstNonce)) "1"
                (Scenario.busyResponse "10000000000000000000" 0) eq_refl)
      as (_ & _ & _ & Hmain).
    destruct (Hmain {| withdrawalStatus := 0; balance := "10000000000000000000" |} []
                {| allocatorId := "1" |} []
                10000000000000000000 500000000000000000 Demo.sponsorValue 25
                2000000000000000000 1000000000000000000)
      as (r & Er & Hiff & Hacc & _);
      [ reflexivity | reflexivity | reflexivity | discriminate
      | vm_compute; reflexivity | vm_compute; reflexivity | vm_compute; reflexivity
      | vm_compute; reflexivity
      | vm_compute; split; [discriminate | reflexivity]
      | reflexivity | vm_compute; reflexivity | vm_compute; reflexivity | ].
    exists r. split; [exact Er |]. split; [exact Hiff |].
    apply Hacc. vm_compute. discriminate.
  - destruct (allocation_accepts_iff_balance (Scenario.busy "3000000000000000000" 0)
                Scenario.busyTables (Demo.compactWith (Some Demo.firstNonce)) "1"
                (Scenario.busyResponse "3000000000000000000" 0) eq_refl)
      as (_ & _ & _ & Hmain).
    destruct (Hmain {| withdrawalStatus := 0; balance := "3000000000000000000" |} []
                {| allocatorId := "1" |} []
                3000000000000000000 500000000000000000 Demo.sponsorValue 25
                2000000000000000000 1000000000000000000)
      as (r & Er & _ & _ & Hrej);
      [ reflexivity | reflexivity | reflexivity | discriminate
      | vm_compute; reflexivity | vm_compute; reflexivity | vm_compute; reflexivity
      | vm_compute; reflexivity
      | vm_compute; split; [discriminate | reflexivity]
      | reflexivity | vm_compute; reflexivity | vm_compute; reflexivity | ].
    rewrite Er. f_equal. apply Hrej. vm_compute. reflexivity.
  - destruct (allocation_accepts_iff_balance (Scenario.busy "10000000000000000000" 1)
                Scenario.busyTables (Demo.compactWith (Some Demo.firstNonce)) "1"
                (Scenario.busyResponse "10000000000000000000" 1) eq_refl)
      as (_ & Hforced & _).
    apply (Hforced {| withdrawalStatus := 1; balance := "10000000000000000000" |} []).
    + reflexivity.
    + discriminate.
Defined.

(** C7 as stated does not hold of the whole stage: with ten tokens in the
    lock, half a token pending, two tokens outstanding and one token asked
    for, the balance suffices, yet a lock with forced withdrawals enabled
    is rejected, and the rejection is not the insufficient-balance one. *)
Lemma allocation_rejects_despite_balance :
  Reconciler.locallyAllocated Demo.sponsorValue "1" Demo.lockId 1700000000 25
    [ "0xa3" ] Scenario.busyTables = Ret 2000000000000000000
  /\ Reconciler.sufficient
       (Reconciler.snapshotAllocatable 10000000000000000000 500000000000000000)
       2000000000000000000 1000000000000000000 = true
  /\ validateAllocation (Scenario.busy "10000000000000000000" 1)
       (Demo.compactWith (Some Demo.firstNonce)) "1" Scenario.busyTables
     = Ret (invalid "Resource lock has forced withdrawals enabled").
Proof.
  split; [vm_compute; reflexivity |].
  split; [reflexivity | vm_compute; reflexivity].
Qed.

(** ** The gap query on a ledger whose first block is used up *)

Lemma fragmentsOf_app (ns1 ns2 : list NonceRow) (cs : list CompactRow) (ts : Z)
    (chain : string) (sp : Z) :
  fragmentsOf {| nonces := (ns1 ++ ns2)%list; compacts := cs; current_timestamp := ts |}
    chain sp
  = (fragmentsOf {| nonces := ns1; compacts := cs; current_timestamp := ts |} chain sp
     ++ fragmentsOf {| nonces := ns2; compacts := cs; current_timestamp := ts |} chain sp)%list.
Proof. unfold fragmentsOf. cbn [nonces]. now rewrite filter_app, map_app. Qed.

Lemma fragmentsOf_lowRun (first count : nat) (cs : list CompactRow) (ts : Z) :
  fragmentsOf {| nonces := Demo.lowRun first count; compacts := cs;
                 current_timestamp := ts |} "1" Demo.sponsorValue
  = map (fun k => (0, Z.of_nat k)) (seq first count).
Proof.
  unfold fragmentsOf, Demo.lowRun. cbn [nonces].
  revert first. induction count as [| count IH]; intros first; [reflexivity |].
  cbn [seq map filter].
  change (String.eqb (nonce_chain_id (Demo.rowOf 0 (Z.of_nat first))) "1"
          && (nonce_sponsor (Demo.rowOf 0 (Z.of_nat first)) =? Demo.sponsorValue))
    with true.
  cbn [map nonce_high nonce_low Demo.rowOf]. now rewrite IH.
Qed.

Lemma fragmentsOf_blockLedger (n : nat) :
  fragmentsOf (Demo.blockLedger n) "1" Demo.sponsorValue
  = (map (fun k => (0, Z.of_nat k)) (seq 0 (S n)) ++ [ (1, 0) ])%list.
Proof.
  unfold Demo.blockLedger. rewrite fragmentsOf_app, fragmentsOf_lowRun. reflexivity.
Qed.

(** The run (0, first) ... followed by (1, 0) is already in window order. *)
Lemma orderByCombined_run (first count : nat) :
  Z.of_nat (first + count) <= 2 ^ 32 ->
  orderByCombined (map (fun k => (0, Z.of_nat k)) (seq first count) ++ [ (1, 0) ])%list
  = (map (fun k => (0, Z.of_nat k)) (seq first count) ++ [ (1, 0) ])%list.
Proof.
  revert first. induction count as [| count IH]; intros first Hb; [reflexivity |].
  cbn [seq map app orderByCombined].
  rewrite IH by lia.
  destruct count as [| count].
  - cbn [seq map app insertByCombined]. unfold combined. cbn [fst snd].
    replace (0 * 2 ^ 32 + Z.of_nat first <=? 1 * 2 ^ 32 + 0) with true; [reflexivity |].
    symmetry. apply Z.leb_le. lia.
  - cbn [seq map app insertByCombined]. unfold combined. cbn [fst snd].
    replace (0 * 2 ^ 32 + Z.of_nat first <=? 0 * 2 ^ 32 + Z.of_nat (S first)) with true;
      [reflexivity |].
    symmetry. apply Z.leb_le. lia.
Qed.

(** In such a run only its last row and the row (1, 0) announce a gap. *)
Lemma opensGap_run (first count : nat) :
  Z.of_nat (first + count) + 1 < 2 ^ 32 ->
  filter opensGap
    (numbered_gaps (map (fun k => (0, Z.of_nat k)) (seq first (S count)) ++ [ (1, 0) ])%list)
  = [ ((0, Z.of_nat (first + count)), Some (1, 0)); ((1, 0), None) ].
Proof.
  revert first. induction count as [| count IH]; intros first Hb.
  - cbn [seq map app numbered_gaps hd_error filter]. unfold opensGap at 1 2.
    cbn [fst snd]. unfold combined. cbn [fst snd].
    replace (1 * 2 ^ 32 + 0 >? 0 * 2 ^ 32 + Z.of_nat first + 1) with true.
    + rewrite Nat.add_0_r. reflexivity.
    + symmetry. apply Z.gtb_lt. lia.
  - change (seq first (S (S count))) with (first :: seq (S first) (S count)).
    cbn [map app numbered_gaps].
    change (seq (S first) (S count)) with (S first :: seq (S (S first)) count) at 1.
    cbn [map app hd_error filter]. unfold opensGap at 1. cbn [fst snd].
    unfold combined at 1 2. cbn [fst snd].
    replace (0 * 2 ^ 32 + Z.of_nat (S first) >? 0 * 2 ^ 32 + Z.of_nat first + 1)
      with false by (symmetry; rewrite Z.gtb_ltb; apply Z.ltb_ge; lia).
    change (S first :: seq (S (S first)) count) with (seq (S first) (S count)).
    rewrite IH by lia.
    replace (S first + count)%nat with (first + S count)%nat by lia. reflexivity.
Qed.

(** On the ledger with (0, 0) ... (0, 2^31 - 1) and (1, 0) the gap query
    answers (1, 0). *)
Lemma selectNextNonce_blockLedger (n : nat) :
  Z.of_nat n = 2147483647 ->
  tbl_selectNextNonce (Demo.blockLedger n) "1" Demo.sponsorValue = Ret (Some 1, Some 0).
Proof.
  intros Hn. unfold tbl_selectNextNonce, gaps, gapRows.
  rewrite fragmentsOf_blockLedger.
  rewrite orderByCombined_run by (simpl Nat.add; lia).
  rewrite opensGap_run by (simpl Nat.add; lia).
  cbn [Nat.add map fst mapOutcome]. unfold gapAfter at 1. rewrite Hn.
  reflexivity.
Qed.

(** C6, on a ledger whose first block is used up.  With every fragment
    (0, 0) ... (0, 2^31 - 1) and the fragment (1, 0) in the ledger, the
    smallest fragment not present is (1, 1); [generateNonce] returns the
    nonce of fragment (1, 0), which is in the ledger.  The row
    (0, 2^31 - 1) is followed by (1, 0), whose combined value exceeds its
    own by more than one, so the query takes its successor for a gap. *)
Theorem generateNonce_reissues_used_fragment :
  generateNonce Demo.sponsorAddress "1" Demo.exhaustedBlock
  = Ret (Demo.sponsorValue * 2 ^ 96 + 1 * 2 ^ 32 + 0)
  /\ In (1, 0) (fragmentsOf Demo.exhaustedBlock "1" Demo.sponsorValue)
  /\ NonceSpace.leastUnused (fragmentsOf Demo.exhaustedBlock "1" Demo.sponsorValue) (1, 1).
Proof.
  assert (Hn : Z.of_nat (Z.to_nat 2147483647) = 2147483647) by (apply Z2Nat.id; lia).
  unfold Demo.exhaustedBlock.
  rewrite fragmentsOf_blockLedger.
  set (n := Z.to_nat 2147483647) in *.
  assert (Hin : forall h l,
             In (h, l) (map (fun k => (0, Z.of_nat k)) (seq 0 (S n)) ++ [ (1, 0) ])%list
             <-> (h = 0 /\ 0 <= l <= 2147483647) \/ (h = 1 /\ l = 0)).
  { intros h l. rewrite in_app_iff, in_map_iff. split.
    - intros [(k & Ek & Hk) | [E | []]].
      + apply in_seq in Hk. injection Ek as <- <-. left. lia.
      + injection E as <- <-. right. lia.
    - intros [(-> & Hl) | (-> & ->)].
      + left. exists (Z.to_nat l). split; [f_equal; lia | apply in_seq; lia].
      + right. left. reflexivity. }
  split; [| split].
  - unfold generateNonce.
    change (getAddress Demo.sponsorAddress) with (Ret Demo.sponsorValue).
    cbn [bind selectNextNonce Tables_Database].
    rewrite (selectNextNonce_blockLedger n Hn). reflexivity.
  - apply Hin. right. split; reflexivity.
  - unfold NonceSpace.leastUnused, NonceSpace.validFragment. cbn [fst snd].
    split; [lia |]. split.
    + rewrite Hin. lia.
    + intros [h l] (Hh & Hl) Hfree. rewrite Hin in Hfree.
      unfold combined. cbn [fst snd] in *. lia.
Qed.

(** The cases of C6 that do hold.  On a ledger without rows for the
    sponsor the nonce is the sponsor's address above fragment (0, 0). *)
Lemma generateNonce_fresh_sponsor (sp chain : string) (a : Z) (t : Tables) :
  getAddress sp = Ret a ->
  fragmentsOf t chain a = [] ->
  generateNonce sp chain t = Ret (a * 2 ^ 96 + 0 * 2 ^ 32 + 0).
Proof.
  intros Ha Hrows. unfold generateNonce. rewrite Ha.
  cbn [bind selectNextNonce Tables_Database].
  assert (E : tbl_selectNextNonce t chain a = Ret (Some 0, Some 0))
    by (unfold tbl_selectNextNonce; rewrite Hrows; reflexivity).
  rewrite E. cbn [bind matchNextNonce].
  change ((0 <? 0) || (0 <? 0)) with false. cbv iota. cbn [bind].
  rewrite nonce_lor_is_sum by lia. reflexivity.
Qed.

(** When (0, 0) is the only fragment used, the next one is (0, 1). *)
Lemma generateNonce_after_first (sp chain : string) (a : Z) (t : Tables) :
  getAddress sp = Ret a ->
  fragmentsOf t chain a = [ (0, 0) ] ->
  generateNonce sp chain t = Ret (a * 2 ^ 96 + 0 * 2 ^ 32 + 1).
Proof.
  intros Ha Hrows. unfold generateNonce. rewrite Ha.
  cbn [bind selectNextNonce Tables_Database].
  assert (E : tbl_selectNextNonce t chain a = Ret (Some 0, Some 1))
    by (unfold tbl_selectNextNonce; rewrite Hrows; reflexivity).
  rewrite E. cbn [bind matchNextNonce].
  change ((0 <? 0) || (1 <? 0)) with false. cbv iota. cbn [bind].
  rewrite nonce_lor_is_sum by lia. reflexivity.
Qed.

(** The candidate a row announces is the specification's successor. *)
Lemma gapAfter_successor (f : Z * Z) :
  NonceSpace.validFragment f -> fst f < INT64_MAX ->
  gapAfter f = Ret (NonceSpace.successor f).
Proof.
  destruct f as [h l]. unfold NonceSpace.validFragment, NonceSpace.successor, gapAfter.
  cbn [fst snd]. intros (Hh & Hl) Hmax.
  destruct (Z.eqb_spec l 2147483647) as [-> | Hne].
  - replace (h =? INT64_MAX) with false by (symmetry; apply Z.eqb_neq; lia).
    reflexivity.
  - replace (l <? 2147483647) with true by (symmetry; apply Z.ltb_lt; lia).
    reflexivity.
Qed.

(** ** The gap query in general *)

Lemma insertByCombined_In (x y : Z * Z) (l : list (Z * Z)) :
  In y (insertByCombined x l) <-> y = x \/ In y l.
Proof.
  induction l as [| z l IH]; cbn [insertByCombined].
  - cbn. intuition congruence.
  - destruct (combined x <=? combined z); cbn [In]; [intuition congruence |].
    rewrite IH. intuition congruence.
Qed.

Lemma orderByCombined_In (y : Z * Z) (l : list (Z * Z)) :
  In y (orderByCombined l) <-> In y l.
Proof.
  induction l as [| x l IH]; cbn [orderByCombined]; [reflexivity |].
  rewrite insertByCombined_In, IH. cbn. intuition congruence.
Qed.

Lemma insertByCombined_sorted (x : Z * Z) (l : list (Z * Z)) :
  StronglySorted byCombined l -> StronglySorted byCombined (insertByCombined x l).
Proof.
  induction 1 as [| z l HS IH HF]; cbn [insertByCombined].
  - constructor; constructor.
  - destruct (Z.leb_spec (combined x) (combined z)) as [Hle | Hgt].
    + constructor; [constructor; assumption |].
      constructor; [exact Hle |].
      apply Forall_forall. intros w Hw.
      rewrite Forall_forall in HF. specialize (HF w Hw). unfold byCombined in *. lia.
    + constructor; [exact IH |].
      apply Forall_forall. intros w Hw. apply insertByCombined_In in Hw as [-> | Hw].
      * unfold byCombined. lia.
      * rewrite Forall_forall in HF. now apply HF.
Qed.

Lemma orderByCombined_sorted (l : list (Z * Z)) :
  StronglySorted byCombined (orderByCombined l).
Proof.
  induction l as [| x l IH]; cbn [orderByCombined]; [constructor |].
  now apply insertByCombined_sorted.
Qed.

(** [ORDER BY ... LIMIT 1] picks a row of least combined value. *)
Lemma orderByCombined_first (l rest : list (Z * Z)) (g : Z * Z) :
  orderByCombined l = g :: rest ->
  In g l /\ forall g', In g' l -> combined g <= combined g'.
Proof.
  intros E. pose proof (orderByCombined_sorted l) as HS. rewrite E in HS.
  split.
  - apply orderByCombined_In. rewrite E. now left.
  - intros g' Hg'. apply orderByCombined_In in Hg'. rewrite E in Hg'.
    destruct Hg' as [<- | Hg']; [lia |].
    inversion HS as [| ? ? _ HF]; subst.
    rewrite Forall_forall in HF. now apply HF.
Qed.

Lemma numbered_gaps_In (r : Z * Z) (nx : option (Z * Z)) (l : list (Z * Z)) :
  In (r, nx) (numbered_gaps l) -> In r l.
Proof.
  induction l as [| x l IH]; cbn [numbered_gaps In]; [tauto |].
  intros [E | Hin]; [left; congruence | right; now apply IH].
Qed.

(** A row that opens a gap has no row right above it: every row of the
    window is at most the row or more than one above it. *)
Lemma opensGap_sound (l : list (Z * Z)) :
  StronglySorted byCombined l ->
  forall r nx, In (r, nx) (numbered_gaps l) -> opensGap (r, nx) = true ->
  forall r', In r' l -> combined r' <= combined r \/ combined r + 1 < combined r'.
Proof.
  induction 1 as [| x l HS IH HF]; intros r nx Hin Hopen r' Hr'; [contradiction |].
  rewrite Forall_forall in HF. unfold byCombined in HF.
  cbn [numbered_gaps In] in Hin. destruct Hin as [E | Hin].
  - injection E as <- <-.
    destruct Hr' as [<- | Hr']; [left; lia |].
    destruct l as [| y l']; [contradiction |].
    unfold opensGap in Hopen. cbn [snd fst hd_error] in Hopen.
    apply Z.gtb_lt in Hopen.
    inversion HS as [| ? ? _ HFy]; subst.
    rewrite Forall_forall in HFy. unfold byCombined in HFy.
    destruct Hr' as [<- | Hr']; [right; lia |].
    specialize (HFy r' Hr'). right. lia.
  - destruct Hr' as [<- | Hr'].
    + left. apply HF. now apply (numbered_gaps_In r nx).
    + now apply (IH r nx).
Qed.

(** Conversely a row with no row right above it shows among the rows that
    open a gap (as itself or as a row of the same combined value). *)
Lemma opensGap_complete (l : list (Z * Z)) :
  StronglySorted byCombined l ->
  forall r, In r l ->
  (forall r', In r' l -> combined r' <= combined r \/ combined r + 1 < combined r') ->
  exists r2 nx,
    In (r2, nx) (numbered_gaps l) /\ opensGap (r2, nx) = true
    /\ combined r2 = combined r.
Proof.
  induction 1 as [| x l HS IH HF]; intros r Hin Hgap; [contradiction |].
  rewrite Forall_forall in HF. unfold byCombined in HF.
  destruct l as [| y l'].
  - destruct Hin as [<- | []]. exists x, None. cbn. repeat split. now left.
  - assert (Htail : forall q, In q (y :: l') ->
              (forall r', In r' (y :: l') ->
                 combined r' <= combined q \/ combined q + 1 < combined r') ->
              exists r2 nx, In (r2, nx) (numbered_gaps (x :: y :: l'))
                            /\ opensGap (r2, nx) = true /\ combined r2 = combined q).
    { intros q Hq Hqgap. destruct (IH q Hq Hqgap) as (r2 & nx & H1 & H2 & H3).
      exists r2, nx. repeat split; try assumption. right. exact H1. }
    destruct Hin as [<- | Hin].
    + destruct (Hgap y (or_intror (or_introl eq_refl))) as [Hle | Hgt].
      * assert (Eq : combined y = combined x)
          by (specialize (HF y (or_introl eq_refl)); lia).
        destruct (Htail y (or_introl eq_refl)) as (r2 & nx & H1 & H2 & H3).
        { intros r' Hr'. rewrite Eq. apply Hgap. now right. }
        exists r2, nx. repeat split; try assumption. lia.
      * exists x, (Some y). repeat split; [now left |].
        unfold opensGap. cbn [snd fst]. apply Z.gtb_lt. lia.
    + apply (Htail r Hin). intros r' Hr'. apply Hgap. now right.
Qed.

Lemma combined_injective (f g : Z * Z) :
  NonceSpace.validFragment f -> NonceSpace.validFragment g ->
  combined f = combined g -> f = g.
Proof.
  destruct f as [h l], g as [h' l'].
  unfold NonceSpace.validFragment, combined. cbn [fst snd].
  intros (Hh & Hl) (Hh' & Hl') E.
  assert (h = h') by nia. subst h'. f_equal. lia.
Qed.

Lemma mapOutcome_gapAfter (l : list (Z * Z)) :
  (forall f, In f l -> NonceSpace.validFragment f /\ fst f < INT64_MAX) ->
  mapOutcome gapAfter l = Ret (map NonceSpace.successor l).
Proof.
  induction l as [| x l IH]; intros Hl; [reflexivity |].
  cbn [mapOutcome map].
  destruct (Hl x (or_introl eq_refl)) as (Hv & Hm).
  rewrite (gapAfter_successor x Hv Hm). cbn [bind].
  rewrite IH by (intros f Hf; apply Hl; now right). reflexivity.
Qed.

Lemma hasZeroZero_In (rows : list (Z * Z)) :
  hasZeroZero rows = true <-> In (0, 0) rows.
Proof.
  unfold hasZeroZero. rewrite existsb_exists. split.
  - intros ([h l] & Hin & E). cbn [fst snd] in E.
    apply andb_prop in E as [E1 E2]. apply Z.eqb_eq in E1, E2. now subst.
  - intros Hin. exists (0, 0). split; [exact Hin | reflexivity].
Qed.

Lemma classic_below (rows : list (Z * Z)) (c : Z) :
  (exists r, In r rows /\ combined r < c) \/ ~ (exists r, In r rows /\ combined r < c).
Proof.
  induction rows as [| x rows [IH | IH]].
  - right. intros (r & [] & _).
  - left. destruct IH as (r & Hin & Hr). exists r. split; [now right | exact Hr].
  - destruct (Z.lt_ge_cases (combined x) c) as [Hx | Hx].
    + left. exists x. split; [now left | exact Hx].
    + right. intros (r & [<- | Hin] & Hr); [lia |]. apply IH. now exists r.
Qed.

(** Among the rows below a bound, if there is one, there is a highest. *)
Lemma highest_below (rows : list (Z * Z)) (c : Z) :
  (exists r, In r rows /\ combined r < c) ->
  exists r, In r rows /\ combined r < c
            /\ forall r', In r' rows -> combined r' < c -> combined r' <= combined r.
Proof.
  induction rows as [| x rows IH]; intros (r & Hin & Hr); [contradiction |].
  destruct (Z.lt_ge_cases (combined x) c) as [Hx | Hx].
  - destruct (classic_below rows c) as [Hex | Hnone].
    + destruct (IH Hex) as (m & Hm & Hmc & Hmax).
      destruct (Z.le_gt_cases (combined x) (combined m)).
      * exists m. repeat split; [now right | assumption |].
        intros r' [<- | Hr'] Hc; [lia | now apply Hmax].
      * exists x. repeat split; [now left | assumption |].
        intros r' [<- | Hr'] Hc; [lia |]. specialize (Hmax r' Hr' Hc). lia.
    + exists x. repeat split; [now left | assumption |].
      intros r' [<- | Hr'] Hc; [lia |]. exfalso. apply Hnone. now exists r'.
  - destruct Hin as [<- | Hin]; [lia |].
    destruct (IH (ex_intro _ r (conj Hin Hr))) as (m & Hm & Hmc & Hmax).
    exists m. repeat split; [now right | assumption |].
    intros r' [<- | Hr'] Hc; [lia | now apply Hmax].
Qed.

Section GapQuery.

Variable rows : list (Z * Z).
Hypothesis rows_storable : NonceSpace.storable rows.

Lemma gapRows_sound (r : Z * Z) :
  In r (gapRows rows) ->
  In r rows
  /\ forall r', In r' rows -> combined r' <= combined r \/ combined r + 1 < combined r'.
Proof.
  unfold Store.gapRows. rewrite in_map_iff. intros ([r0 nx] & E & Hin).
  cbn [fst] in E. subst r0. apply filter_In in Hin as [Hin Hopen].
  split.
  - apply orderByCombined_In. now apply (numbered_gaps_In r nx).
  - intros r' Hr'.
    apply (opensGap_sound _ (orderByCombined_sorted rows) r nx Hin Hopen).
    now apply orderByCombined_In.
Qed.

Lemma gapRows_complete (r : Z * Z) :
  In r rows ->
  (forall r', In r' rows -> combined r' <= combined r \/ combined r + 1 < combined r') ->
  In r (gapRows rows).
Proof.
  intros Hin Hgap.
  destruct (opensGap_complete _ (orderByCombined_sorted rows) r) as (r2 & nx & H1 & H2 & H3).
  - now apply orderByCombined_In.
  - intros r' Hr'. apply Hgap. now apply orderByCombined_In.
  - assert (Hr2 : In r2 rows)
      by (apply orderByCombined_In; now apply (numbered_gaps_In r2 nx)).
    assert (r2 = r).
    { apply combined_injective; [apply rows_storable | apply rows_storable |]; assumption. }
    subst r2. unfold Store.gapRows. apply in_map_iff. exists (r, nx). split; [reflexivity |].
    apply filter_In. split; assumption.
Qed.

Lemma gaps_are_candidates : gaps rows = Ret (NonceSpace.candidates rows).
Proof.
  unfold gaps.
  rewrite mapOutcome_gapAfter; [reflexivity |].
  intros f Hf. apply rows_storable. now apply gapRows_sound.
Qed.

(** Below every free fragment there is a candidate. *)
Lemma candidate_below_free (f : Z * Z) :
  NonceSpace.validFragment f -> ~ In f rows ->
  exists c, In c (NonceSpace.candidates rows) /\ combined c <= combined f.
Proof.
  intros Hv Hfree. unfold NonceSpace.candidates.
  destruct (hasZeroZero rows) eqn:Ez.
  - apply hasZeroZero_In in Ez. rewrite app_nil_r.
    assert (Hpos : 0 < combined f).
    { destruct (Z.eq_dec (combined f) 0) as [E0 | Hne].
      - exfalso. apply Hfree.
        replace f with (0, 0); [exact Ez |].
        apply combined_injective; [split; cbn; lia | exact Hv | now rewrite E0].
      - destruct f as [h l]. unfold NonceSpace.validFragment, combined in *.
        cbn [fst snd] in *. lia. }
    destruct (highest_below rows (combined f)) as (r & Hr & Hlt & Hmax).
    { exists (0, 0). split; [exact Ez | exact Hpos]. }
    assert (Hgap : forall r', In r' rows ->
                     combined r' <= combined r \/ combined r + 1 < combined r').
    { intros r' Hr'. destruct (Z.lt_ge_cases (combined r') (combined f)) as [Hb | Ha].
      - left. now apply Hmax.
      - right. assert (combined r' <> combined f); [| lia].
        intros E. apply Hfree. replace f with r'; [exact Hr' |].
        apply combined_injective; [apply rows_storable; exact Hr' | exact Hv | exact E]. }
    exists (NonceSpace.successor r). split.
    + apply in_map. now apply gapRows_complete.
    + destruct (rows_storable r Hr) as (Hrv & _).
      destruct r as [h l], f as [h' l'].
      unfold NonceSpace.successor, NonceSpace.validFragment, combined in *.
      cbn [fst snd] in *.
      destruct (Z.ltb_spec l 2147483647); cbn [fst snd]; nia.
  - exists (0, 0). split; [apply in_or_app; right; now left |].
    destruct f as [h l]. unfold NonceSpace.validFragment, combined in *.
    cbn [fst snd] in *. lia.
Qed.

Lemma candidate_valid (c : Z * Z) : In c (NonceSpace.candidates rows) -> NonceSpace.validFragment c.
Proof.
  unfold NonceSpace.candidates. rewrite in_app_iff, in_map_iff.
  intros [(r & <- & Hr) | Hz].
  - apply gapRows_sound in Hr as [Hr _].
    destruct (rows_storable r Hr) as (Hv & _).
    destruct r as [h l]. unfold NonceSpace.successor, NonceSpace.validFragment in *.
    cbn [fst snd] in *.
    destruct (Z.ltb_spec l 2147483647); cbn [fst snd]; lia.
  - destruct (hasZeroZero rows); [contradiction |].
    destruct Hz as [<- | []]. split; cbn; lia.
Qed.

(** While some fragment (0, l) is still free, the query answers the
    smallest fragment that is not in the ledger. *)
Lemma first_candidate_least_unused (l0 : Z) :
  0 <= l0 <= 2147483647 -> ~ In (0, l0) rows ->
  exists f rest,
    orderByCombined (NonceSpace.candidates rows) = f :: rest /\ NonceSpace.leastUnused rows f.
Proof.
  intros Hl0 Hfree0.
  assert (Hv0 : NonceSpace.validFragment (0, l0)) by (split; cbn; lia).
  destruct (candidate_below_free (0, l0) Hv0 Hfree0) as (c0 & Hc0 & Hle0).
  destruct (orderByCombined (NonceSpace.candidates rows)) as [| f rest] eqn:Eo.
  { exfalso. apply orderByCombined_In in Hc0. rewrite Eo in Hc0. contradiction. }
  exists f, rest. split; [reflexivity |].
  destruct (orderByCombined_first _ _ _ Eo) as (Hf & Hmin).
  assert (Hlow : combined f <= l0).
  { specialize (Hmin c0 Hc0). unfold combined in Hle0 at 2. cbn [fst snd] in Hle0. lia. }
  split; [now apply candidate_valid |]. split.
  - intros Hused.
    unfold NonceSpace.candidates in Hf. apply in_app_or in Hf as [Hf | Hz].
    + apply in_map_iff in Hf as (r & E & Hr).
      apply gapRows_sound in Hr as (Hr & Hgap).
      destruct (rows_storable r Hr) as (Hrv & _).
      specialize (Hgap f Hused). subst f.
      destruct r as [h l]. unfold NonceSpace.successor, NonceSpace.validFragment, combined in *.
      cbn [fst snd] in *.
      destruct (Z.ltb_spec l 2147483647); cbn [fst snd] in *; nia.
    + destruct (hasZeroZero rows) eqn:Ez; [contradiction |].
      destruct Hz as [<- | []].
      apply hasZeroZero_In in Hused. congruence.
  - intros g Hg Hgfree.
    destruct (candidate_below_free g Hg Hgfree) as (c & Hc & Hle).
    specialize (Hmin c Hc). lia.
Qed.

End GapQuery.

(** The gap query and [generateNonce] on the tables: as long as the
    ledger of the sponsor on the chain has some fragment (0, l) free,
    [generateNonce] returns the sponsor's address above the smallest
    fragment that is not in the ledger. *)
Lemma generateNonce_least_unused (sp chain : string) (a l0 : Z) (t : Tables) :
  getAddress sp = Ret a ->
  NonceSpace.storable (fragmentsOf t chain a) ->
  0 <= l0 <= 2147483647 -> ~ In (0, l0) (fragmentsOf t chain a) ->
  exists f,
    NonceSpace.leastUnused (fragmentsOf t chain a) f
    /\ generateNonce sp chain t = Ret (a * 2 ^ 96 + fst f * 2 ^ 32 + snd f).
Proof.
  intros Ha Hst Hl0 Hfree.
  destruct (first_candidate_least_unused _ Hst l0 Hl0 Hfree) as (f & rest & Eo & Hleast).
  exists f. split; [exact Hleast |].
  unfold generateNonce. rewrite Ha. cbn [bind selectNextNonce Tables_Database].
  unfold tbl_selectNextNonce. rewrite (gaps_are_candidates _ Hst). cbn [bind].
  rewrite Eo. cbn [bind matchNextNonce].
  destruct Hleast as ((Hh & Hl) & Hfree' & Hmin).
  assert (Hlow : combined f <= l0).
  { apply (Hmin (0, l0)); [split; cbn; lia | exact Hfree]. }
  assert (Hf0 : fst f = 0).
  { unfold combined in Hlow. nia. }
  replace ((fst f <? 0) || (snd f <? 0)) with false
    by (symmetry; apply orb_false_iff; split; apply Z.ltb_ge; lia).
  cbn [bind]. rewrite nonce_lor_is_sum by lia. reflexivity.
Qed.

(** A generated nonce spells the sponsor in its upper 160 bits and keeps
    bit 31 clear. *)
Lemma generateNonce_binds_sponsor (sp chain : string) (a l0 n : Z) (t : Tables) :
  getAddress sp = Ret a ->
  NonceSpace.storable (fragmentsOf t chain a) ->
  0 <= l0 <= 2147483647 -> ~ In (0, l0) (fragmentsOf t chain a) ->
  generateNonce sp chain t = Ret n ->
  n / 2 ^ 96 = a /\ Z.testbit n 31 = false.
Proof.
  intros Ha Hst Hl0 Hfree Hn.
  destruct (generateNonce_least_unused sp chain a l0 t Ha Hst Hl0 Hfree)
    as (f & ((Hh & Hl) & _ & Hmin) & E).
  assert (En : n = a * 2 ^ 96 + fst f * 2 ^ 32 + snd f) by congruence.
  clear E Hn. subst n.
  assert (Hlow : combined f <= l0).
  { apply (Hmin (0, l0)); [split; cbn; lia | exact Hfree]. }
  assert (Hf0 : fst f = 0) by (unfold combined in Hlow; nia).
  pose proof (getAddress_range sp a Ha) as Hr.
  destruct (packed_fields a (fst f) (snd f)) as (E1 & _ & E3); try lia.
  cbv zeta in E1, E3. split; [exact E1 |].
  apply testbit_31_of_low. rewrite E3. lia.
Qed.

(* ================================================================== *)
(** * Part III. Further properties of the code *)
(* ================================================================== *)

(** ** The stages one by one *)

(** X1.  [validateExpiration] accepts exactly the expiries strictly after
    the clock reading and at most 7200 seconds after it; an expiry at or
    before the reading is reported as expired, one beyond the window as
    too far. *)
Theorem validateExpiration_window (env : Env) (e : Z) :
  (isValid (validateExpiration env e) = true
   <-> now env AtExpiration < e <= now env AtExpiration + 7200)
  /\ (e <= now env AtExpiration ->
      validateExpiration env e = invalid "Compact has expired")
  /\ (now env AtExpiration + 7200 < e ->
      validateExpiration env e = invalid "Expiration must be within 2 hours").
Proof.
  unfold validateExpiration.
  destruct (Z.leb_spec e (now env AtExpiration)) as [H1 | H1].
  - split; [| split].
    + cbn. split; [discriminate | lia].
    + reflexivity.
    + lia.
  - destruct (Z.gtb_spec e (now env AtExpiration + 7200)) as [H2 | H2].
    + split; [| split].
      * cbn. split; [discriminate | lia].
      * lia.
      * reflexivity.
    + split; [| split].
      * cbn. split; [lia | reflexivity].
      * lia.
      * lia.
Qed.

Lemma resetPeriods_lookup (id : Z) :
  0 <= id ->
  nth_error resetPeriods (Z.to_nat (resetPeriodIndex id)) = Some (resetPeriodOf id).
Proof.
  intros Hid. unfold resetPeriodOf.
  pose proof (resetPeriodIndex_range id Hid) as Hr.
  set (k := resetPeriodIndex id) in *.
  assert (Hk : k = 0 \/ k = 1 \/ k = 2 \/ k = 3 \/ k = 4 \/ k = 5 \/ k = 6 \/ k = 7) by lia.
  repeat (destruct Hk as [Hk | Hk]; [rewrite Hk; reflexivity |]).
  rewrite Hk. reflexivity.
Qed.

(** X2.  [validateDomainAndId] never throws and never reaches its catch
    block: the index read from bits 254..252 of a positive id always
    falls inside the table of eight reset periods.  Its answer is decided
    by, in this order, the sign of the id, the form of the chain id, the
    test-mode pass for id 1, and whether the clock reading plus the reset
    period reaches the expiry. *)
Theorem validateDomainAndId_decides (env : Env) (i e : Z) (chain allocator : string) :
  validateDomainAndId env i e chain allocator
  = Ret (if i <=? 0 then invalid "Invalid ID: must be positive"
         else if negb (canonicalChainId env chain) then invalid "Invalid chain ID format"
         else if NODE_ENV_test env && (i =? 1) then valid
         else if now env AtDomain + resetPeriodOf i <? e
              then invalid "Reset period would allow forced withdrawal before expiration"
              else valid).
Proof.
  unfold validateDomainAndId.
  destruct (Z.leb_spec i 0) as [Hi | Hi]; [reflexivity |].
  destruct (negb (canonicalChainId env chain)); [reflexivity |].
  destruct (NODE_ENV_test env && (i =? 1)); [reflexivity |].
  rewrite resetPeriods_lookup by lia. cbn [try_catch].
  destruct (now env AtDomain + resetPeriodOf i <? e); reflexivity.
Qed.

(** X3.  [validateStructure] always answers, and it accepts exactly when
    both addresses are well formed, [expires] and [id] are positive, the
    amount is a non-empty string of decimal digits, and the two witness
    fields are both null or both non-null. *)
Theorem validateStructure_accepts_iff (c : CompactMessage) :
  exists r,
    validateStructure c = Ret r
    /\ (isValid r = true
        <-> (exists a, getAddress (arbiter c) = Ret a)
            /\ (exists s, getAddress (sponsor c) = Ret s)
            /\ 0 < expires c
            /\ 0 < id c
            /\ isDecimalString (amount c) = true
            /\ (witnessTypeString c = None <-> witnessHash c = None)).
Proof.
  unfold validateStructure.
  destruct (getAddress (arbiter c)) as [a | ea]; cbn [bind].
  2:{ eexists. split; [reflexivity |]. cbn. split; [discriminate |].
      intros ((a & Ha) & _). discriminate Ha. }
  destruct (getAddress (sponsor c)) as [s | es].
  2:{ eexists. split; [reflexivity |]. cbn. split; [discriminate |].
      intros (_ & (s & Hs) & _). discriminate Hs. }
  destruct (Z.leb_spec (expires c) 0) as [He | He].
  { eexists. split; [reflexivity |]. cbn. split; [discriminate | intros; lia]. }
  destruct (Z.leb_spec (id c) 0) as [Hi | Hi].
  { eexists. split; [reflexivity |]. cbn. split; [discriminate | intros; lia]. }
  destruct (isDecimalString (amount c)) eqn:Ed; cbn [negb].
  2:{ eexists. split; [reflexivity |]. cbn. split; [discriminate |].
      intros (_ & _ & _ & _ & H & _). discriminate H. }
  destruct (witnessTypeString c) as [wt |], (witnessHash c) as [wh |];
    eexists; (split; [reflexivity |]); cbn; split; try discriminate;
    try (intros (_ & _ & _ & _ & _ & [H1 H2]);
         (discriminate (H1 eq_refl) || discriminate (H2 eq_refl)));
    intros _; repeat split; eauto; try lia; try discriminate.
Qed.

(** X4.  [bigintToHex] answers exactly on the numbers from 0 to
    [2^256 - 1]; its answer has 64 characters and [BigInt('0x' + answer)]
    is the number again.  Any other number makes it throw. *)
Theorem bigintToHex_round_trip (v : Z) :
  match bigintToHex v with
  | Ret h =>
      0 <= v < 2 ^ 256 /\ String.length h = 64%nat
      /\ BigInt_of_string ("0x" ++ h) = Ret v
  | Throw _ => v < 0 \/ 2 ^ 256 <= v
  end.
Proof.
  destruct (bigintToHex v) as [h | e] eqn:E.
  - pose proof (bigintToHex_out_of_range v h E) as Hv.
    rewrite bigintToHex_in_range in E by assumption.
    assert (Eh : h = hexPad 64 v) by congruence. rewrite Eh.
    split; [exact Hv |]. split; [apply hexPad_length |].
    rewrite BigInt_of_hexPad by lia.
    change (16 ^ Z.of_nat 64) with (2 ^ 256). now rewrite Z.mod_small.
  - destruct (Z.lt_ge_cases v 0) as [H | H]; [now left |].
    destruct (Z.lt_ge_cases v (2 ^ 256)) as [H' | H']; [| now right].
    rewrite bigintToHex_in_range in E by lia. discriminate E.
Qed.

(** ** Nonces against the tables *)

(** What [validateNonce] computes on the tables for a 256-bit nonce and a
    well-formed sponsor. *)
Lemma validateNonce_on_tables (n a : Z) (sp chain : string) (t : Tables) :
  0 <= n < 2 ^ 256 -> getAddress sp = Ret a ->
  validateNonce n sp chain t
  = Ret (if negb (n / 2 ^ 96 =? a)
         then invalid "Nonce does not match sponsor address"
         else match tbl_selectNonceCount t chain a
                      (Number_of_BigInt ((n mod 2 ^ 96) / 2 ^ 32)) (n mod 2 ^ 32) with
              | Ret count =>
                  if count >? 0 then invalid "Nonce has already been used" else valid
              | Throw e => invalid ("Nonce validation error: " ++ message_or_string e)
              end).
Proof.
  intros Hn Ha. unfold validateNonce.
  pose proof (bigintToHex_in_range n Hn) as Eh.
  destruct (nonce_hex_split n _ Eh) as (_ & Eto & Efrom).
  rewrite Eh. cbn [bind]. rewrite Eto, Efrom, Ha. cbn [bind].
  unfold lowerHex40.
  pose proof (getAddress_range sp a Ha) as Hr.
  assert (Hq : 0 <= n / 2 ^ 96 < 2 ^ 160).
  { split; [apply Z.div_pos; lia | apply Z.div_lt_upper_bound; lia]. }
  rewrite hexPad_eqb by lia.
  change (16 ^ Z.of_nat 40) with (2 ^ 160). rewrite !Z.mod_small by lia.
  destruct (n / 2 ^ 96 =? a); cbn [negb]; [| reflexivity].
  rewrite splitFragment_hexPad by lia. cbn [bind].
  rewrite (addressToBytes_getAddress sp a Ha). cbn [bind].
  cbn [selectNonceCount Tables_Database].
  destruct (tbl_selectNonceCount t chain a _ _) as [count | e]; cbn [bind try_catch];
    [destruct (count >? 0) |]; reflexivity.
Qed.

Lemma filter_none {A : Type} (p : A -> bool) (l : list A) :
  filter p l = [] <-> forall x, In x l -> p x = false.
Proof.
  induction l as [| y l IH]; cbn [filter].
  - split; [intros _ x [] | reflexivity].
  - destruct (p y) eqn:Ey.
    + split; [discriminate |]. intros H. specialize (H y (or_introl eq_refl)). congruence.
    + rewrite IH. split.
      * intros H x [<- | Hx]; [exact Ey | now apply H].
      * intros H x Hx. apply H. now right.
Qed.




(** What [storeNonce] does on the tables for a 256-bit nonce. *)
Lemma storeNonce_on_tables (env : Env) (n : Z) (chain : string) (t : Tables) :
  0 <= n < 2 ^ 256 ->
  storeNonce env n chain t
  = tbl_insertNonce t (randomUUID env) chain (n / 2 ^ 96)
      (Number_of_BigInt ((n mod 2 ^ 96) / 2 ^ 32)) (n mod 2 ^ 32).
Proof.
  intros Hn. unfold storeNonce.
  pose proof (bigintToHex_in_range n Hn) as Eh.
  destruct (nonce_hex_split n _ Eh) as (_ & Eto & Efrom).
  rewrite Eh. cbn [bind]. rewrite Eto, Efrom.
  rewrite splitFragment_hexPad by lia. cbn [bind].
  assert (Hq : 0 <= n / 2 ^ 96 < 2 ^ 160).
  { split; [apply Z.div_pos; lia | apply Z.div_lt_upper_bound; lia]. }
  rewrite hexToBytes_hexPad by lia.
  change (16 ^ Z.of_nat 40) with (2 ^ 160). rewrite Z.mod_small by lia.
  reflexivity.
Qed.

Lemma storeNonce_in_range (env : Env) (n : Z) (chain : string) (t t' : Tables) :
  storeNonce env n chain t = Ret t' -> 0 <= n < 2 ^ 256.
Proof.
  unfold storeNonce. intros E.
  destruct (bigintToHex n) as [h | e] eqn:Eh; [| discriminate E].
  exact (bigintToHex_out_of_range n h Eh).
Qed.

Lemma tbl_insertNonce_inv (t t' : Tables) (uuid chain : string) (sp high low : Z) :
  tbl_insertNonce t uuid chain sp high low = Ret t' ->
  fitsInt64 high = true /\ fitsInt32 low = true
  /\ existsb (nonceRowIs chain sp high low) (nonces t) = false
  /\ nonces t' = (nonces t ++ [ {| nonce_id := uuid; nonce_chain_id := chain;
                                   nonce_sponsor := sp; nonce_high := high;
                                   nonce_low := low |} ])%list
  /\ compacts t' = compacts t.
Proof.
  unfold tbl_insertNonce. intros E.
  destruct (fitsInt64 high); [| discriminate E].
  destruct (fitsInt32 low); [| discriminate E].
  destruct (existsb _ (nonces t)); [discriminate E |].
  cbn [negb] in E. injection E as <-. repeat split.
Qed.

(** X6.  A nonce that [storeNonce] has written is refused by
    [validateNonce] afterwards as already used, for the sponsor its upper
    160 bits spell. *)
Theorem stored_nonce_is_used (env : Env) (n : Z) (sp chain : string) (t t' : Tables) :
  storeNonce env n chain t = Ret t' ->
  getAddress sp = Ret (n / 2 ^ 96) ->
  validateNonce n sp chain t' = Ret (invalid "Nonce has already been used").
Proof.
  intros Hs Ha.
  pose proof (storeNonce_in_range env n chain t t' Hs) as Hn.
  rewrite storeNonce_on_tables in Hs by assumption.
  destruct (tbl_insertNonce_inv _ _ _ _ _ _ _ Hs) as (E64 & E32 & _ & Enon & _).
  rewrite (validateNonce_on_tables n _ sp chain t' Hn Ha).
  rewrite Z.eqb_refl. cbn [negb].
  unfold tbl_selectNonceCount.
  rewrite Enon, filter_app. cbn [filter].
  unfold nonceRowIs at 2.
  cbn [nonce_chain_id nonce_sponsor nonce_high nonce_low].
  rewrite String.eqb_refl, !Z.eqb_refl. cbn [andb].
  rewrite length_app. cbn [List.length].
  replace (Z.of_nat _ >? 0) with true by (symmetry; apply Z.gtb_lt; lia).
  reflexivity.
Qed.

Lemma stored_nonce_is_used_witness :
  (storeNonce Demo.funded Demo.firstNonce "1" Demo.emptyTables
   = Ret {| nonces := [ {| nonce_id := "3f2b4c5d-0000-4000-8000-000000000001";
                           nonce_chain_id := "1";
                           nonce_sponsor := Demo.sponsorValue;
                           nonce_high := 0; nonce_low := 0 |} ];
            compacts := []; current_timestamp := 1700000000 |}
   /\ getAddress Demo.sponsorAddress = Ret (Demo.firstNonce / 2 ^ 96))
  /\ validateNonce Demo.firstNonce Demo.sponsorAddress "1"
       {| nonces := [ {| nonce_id := "3f2b4c5d-0000-4000-8000-000000000001";
                         nonce_chain_id := "1";
                         nonce_sponsor := Demo.sponsorValue;
                         nonce_high := 0; nonce_low := 0 |} ];
          compacts := []; current_timestamp := 1700000000 |}
     = Ret (invalid "Nonce has already been used").
Proof.
  assert (H1 : storeNonce Demo.funded Demo.firstNonce "1" Demo.emptyTables
   = Ret {| nonces := [ {| nonce_id := "3f2b4c5d-0000-4000-8000-000000000001";
                           nonce_chain_id := "1";
                           nonce_sponsor := Demo.sponsorValue;
                           nonce_high := 0; nonce_low := 0 |} ];
            compacts := []; current_timestamp := 1700000000 |})
    by (vm_compute; reflexivity).
  assert (H2 : getAddress Demo.sponsorAddress = Ret (Demo.firstNonce / 2 ^ 96))
    by (vm_compute; reflexivity).
  split; [split; assumption |].
  exact (stored_nonce_is_used Demo.funded Demo.firstNonce Demo.sponsorAddress "1"
           Demo.emptyTables _ H1 H2).
Defined.



(** ** The gap search *)

Lemma gappedLedger_storable :
  NonceSpace.storable (fragmentsOf Scenario.gappedLedger "1" Demo.sponsorValue).
Proof.
  intros f Hf. cbv in Hf. destruct Hf as [<- | [<- | []]];
    (split; [split; cbn; lia | cbn; unfold INT64_MAX; lia]).
Defined.

Lemma gappedLedger_free :
  ~ In (0, 1) (fragmentsOf Scenario.gappedLedger "1" Demo.sponsorValue).
Proof.
  intros Hf. cbv in Hf. destruct Hf as [E | [E | []]]; discriminate E.
Defined.

(** X8.  While some fragment (0, l) of the sponsor is free on the chain,
    [generateNonce] returns the sponsor's address above the smallest
    fragment, in the order of [high * 2^32 + low], that is not in the
    ledger: gaps left between used fragments are filled first.  That
    fragment has high word 0, and the upper 160 bits of the nonce are the
    sponsor's address. *)
Theorem generateNonce_returns_least_unused (sp chain : string) (a l0 : Z) (t : Tables) :
  getAddress sp = Ret a ->
  NonceSpace.storable (fragmentsOf t chain a) ->
  0 <= l0 <= 2147483647 -> ~ In (0, l0) (fragmentsOf t chain a) ->
  exists l,
    NonceSpace.leastUnused (fragmentsOf t chain a) (0, l)
    /\ generateNonce sp chain t = Ret (a * 2 ^ 96 + l)
    /\ (a * 2 ^ 96 + l) / 2 ^ 96 = a.
Proof.
  intros Ha Hst Hl0 Hfree.
  destruct (generateNonce_least_unused sp chain a l0 t Ha Hst Hl0 Hfree)
    as ([h l] & Hleast & E).
  pose proof Hleast as ((Hh & Hl) & _ & Hmin).
  assert (Hlow : combined (h, l) <= l0).
  { apply (Hmin (0, l0)); [split; cbn; lia | exact Hfree]. }
  cbn [fst snd] in *.
  assert (h = 0) by (unfold combined in Hlow; cbn [fst snd] in Hlow; nia).
  subst h. exists l. split; [exact Hleast |]. split.
  - rewrite E. f_equal. lia.
  - pose proof (getAddress_range sp a Ha).
    destruct (packed_fields a 0 l) as (E1 & _); try lia.
    cbv zeta in E1. rewrite <- E1 at 2. f_equal. lia.
Qed.

Lemma generateNonce_returns_least_unused_witness :
  (getAddress Demo.sponsorAddress = Ret Demo.sponsorValue
   /\ NonceSpace.storable (fragmentsOf Scenario.gappedLedger "1" Demo.sponsorValue)
   /\ 0 <= 1 <= 2147483647
   /\ ~ In (0, 1) (fragmentsOf Scenario.gappedLedger "1" Demo.sponsorValue))
  /\ exists l,
       NonceSpace.leastUnused (fragmentsOf Scenario.gappedLedger "1" Demo.sponsorValue)
         (0, l)
       /\ generateNonce Demo.sponsorAddress "1" Scenario.gappedLedger
          = Ret (Demo.sponsorValue * 2 ^ 96 + l)
       /\ (Demo.sponsorValue * 2 ^ 96 + l) / 2 ^ 96 = Demo.sponsorValue.
Proof.
  assert (H1 : getAddress Demo.sponsorAddress = Ret Demo.sponsorValue)
    by (vm_compute; reflexivity).
  assert (H3 : 0 <= 1 <= 2147483647) by lia.
  split;
    [split; [exact H1 |
       split; [exact gappedLedger_storable | split; [exact H3 | exact gappedLedger_free]]] |].
  exact (generateNonce_returns_least_unused Demo.sponsorAddress "1" Demo.sponsorValue 1
           Scenario.gappedLedger H1 gappedLedger_storable H3 gappedLedger_free).
Defined.

Lemma absent_fragment_count (t : Tables) (chain : string) (a h l : Z) :
  ~ In (h, l) (fragmentsOf t chain a) ->
  filter (nonceRowIs chain a h l) (nonces t) = [].
Proof.
  intros Hfree. apply filter_none. intros row Hin.
  apply not_true_is_false. intros Hrow. apply Hfree.
  unfold nonceRowIs in Hrow.
  apply andb_prop in Hrow as [Hrow El]. apply andb_prop in Hrow as [Hrow Eh].
  apply Z.eqb_eq in El, Eh.
  unfold fragmentsOf. apply in_map_iff. exists row. split; [now rewrite Eh, El |].
  apply filter_In. split; assumption.
Qed.

(** X9.  The nonce [generateNonce] hands out passes [validateNonce] on the
    same tables, as long as some fragment (0, l) of the sponsor is free. *)
Theorem generated_nonce_is_accepted (sp chain : string) (a l0 n : Z) (t : Tables) :
  getAddress sp = Ret a ->
  NonceSpace.storable (fragmentsOf t chain a) ->
  0 <= l0 <= 2147483647 -> ~ In (0, l0) (fragmentsOf t chain a) ->
  generateNonce sp chain t = Ret n ->
  validateNonce n sp chain t = Ret valid.
Proof.
  intros Ha Hst Hl0 Hfree Hn.
  destruct (generateNonce_least_unused sp chain a l0 t Ha Hst Hl0 Hfree)
    as (f & ((Hh & Hl) & Hunused & Hmin) & E).
  assert (En : n = a * 2 ^ 96 + fst f * 2 ^ 32 + snd f) by congruence.
  clear E Hn. subst n.
  assert (Hlow : combined f <= l0).
  { apply (Hmin (0, l0)); [split; cbn; lia | exact Hfree]. }
  assert (Hf0 : fst f = 0) by (unfold combined in Hlow; nia).
  pose proof (getAddress_range sp a Ha) as Hr.
  destruct (packed_fields a (fst f) (snd f)) as (E1 & E2 & E3); try lia.
  cbv zeta in E1, E2, E3.
  rewrite (validateNonce_on_tables _ a sp chain t); [| lia | exact Ha].
  rewrite E1, E2, E3, Z.eqb_refl. cbn [negb].
  rewrite Hf0. change (Number_of_BigInt 0) with 0.
  unfold tbl_selectNonceCount. change (fitsInt64 0) with true. cbn [negb].
  replace (fitsInt32 (snd f)) with true.
  2:{ symmetry. unfold fitsInt32, INT32_MAX.
      apply andb_true_intro. split; apply Z.leb_le; lia. }
  cbn [negb].
  rewrite absent_fragment_count; [reflexivity |].
  destruct f as [h l]. cbn [fst snd] in *. subst h. exact Hunused.
Qed.

Lemma generated_nonce_is_accepted_witness :
  (getAddress Demo.sponsorAddress = Ret Demo.sponsorValue
   /\ NonceSpace.storable (fragmentsOf Scenario.gappedLedger "1" Demo.sponsorValue)
   /\ 0 <= 1 <= 2147483647
   /\ ~ In (0, 1) (fragmentsOf Scenario.gappedLedger "1" Demo.sponsorValue)
   /\ generateNonce Demo.sponsorAddress "1" Scenario.gappedLedger
      = Ret Scenario.secondNonce)
  /\ validateNonce Scenario.secondNonce Demo.sponsorAddress "1" Scenario.gappedLedger
     = Ret valid.
Proof.
  assert (H1 : getAddress Demo.sponsorAddress = Ret Demo.sponsorValue)
    by (vm_compute; reflexivity).
  assert (H3 : 0 <= 1 <= 2147483647) by lia.
  assert (H5 : generateNonce Demo.sponsorAddress "1" Scenario.gappedLedger
               = Ret Scenario.secondNonce) by (vm_compute; reflexivity).
  split;
    [split; [exact H1 |
       split; [exact gappedLedger_storable |
         split; [exact H3 | split; [exact gappedLedger_free | exact H5]]]] |].
  exact (generated_nonce_is_accepted Demo.sponsorAddress "1" Demo.sponsorValue 1
           Scenario.secondNonce Scenario.gappedLedger
           H1 gappedLedger_storable H3 gappedLedger_free H5).
Defined.

Lemma numbered_gaps_last (l : list (Z * Z)) :
  l <> [] -> exists r, In (r, None) (numbered_gaps l).
Proof.
  induction l as [| x l IH]; intros Hne; [contradiction |].
  destruct l as [| y l'].
  - exists x. now left.
  - destruct IH as (r & Hr); [discriminate |]. exists r. right. exact Hr.
Qed.

Lemma candidates_nonempty (rows : list (Z * Z)) : NonceSpace.candidates rows <> [].
Proof.
  unfold NonceSpace.candidates.
  destruct rows as [| x rows]; [discriminate |].
  destruct (numbered_gaps_last (orderByCombined (x :: rows))) as (r & Hr).
  { intros E. assert (Hin : In x (orderByCombined (x :: rows)))
      by (apply orderByCombined_In; now left).
    rewrite E in Hin. contradiction. }
  assert (Hg : In r (gapRows (x :: rows))).
  { unfold gapRows. apply in_map_iff. exists (r, None). split; [reflexivity |].
    apply filter_In. split; [exact Hr | reflexivity]. }
  intros E. apply app_eq_nil in E as [E _]. apply map_eq_nil in E.
  rewrite E in Hg. contradiction.
Qed.

(** X10.  On a ledger whose rows fit their columns [generateNonce] always
    returns the sponsor's address above a fragment with low word in
    [0, 2^31 - 1]; and the only fragments of the ledger it can return are
    block starts (h + 1, 0) that follow a used (h, 2^31 - 1).  It never
    hands out a used fragment whose low word is not zero, nor (0, 0). *)
Theorem generateNonce_reissues_only_block_starts (sp chain : string) (a n : Z)
    (t : Tables) :
  getAddress sp = Ret a ->
  NonceSpace.storable (fragmentsOf t chain a) ->
  generateNonce sp chain t = Ret n ->
  exists f,
    n = a * 2 ^ 96 + fst f * 2 ^ 32 + snd f
    /\ NonceSpace.validFragment f
    /\ (In f (fragmentsOf t chain a) ->
        snd f = 0 /\ 1 <= fst f /\ In (fst f - 1, 2147483647) (fragmentsOf t chain a)).
Proof.
  intros Ha Hst Hn.
  set (rows := fragmentsOf t chain a) in *.
  unfold generateNonce in Hn. rewrite Ha in Hn.
  cbn [bind selectNextNonce Tables_Database] in Hn.
  unfold tbl_selectNextNonce in Hn. fold rows in Hn.
  rewrite (gaps_are_candidates rows Hst) in Hn. cbn [bind] in Hn.
  destruct (orderByCombined (NonceSpace.candidates rows)) as [| f rest] eqn:Eo.
  { exfalso. pose proof (candidates_nonempty rows) as Hne.
    destruct (NonceSpace.candidates rows) as [| c cs] eqn:Ec; [contradiction |].
    assert (Hin : In c (orderByCombined (c :: cs))) by (apply orderByCombined_In; now left).
    rewrite Eo in Hin. contradiction. }
  destruct (orderByCombined_first _ _ _ Eo) as (Hf & _).
  pose proof (candidate_valid rows Hst f Hf) as Hv.
  assert (Hhigh : fst f <= INT64_MAX /\
                  (In f rows -> snd f = 0 /\ 1 <= fst f /\ In (fst f - 1, 2147483647) rows)).
  { unfold NonceSpace.candidates in Hf. apply in_app_or in Hf as [Hf' | Hz].
    - apply in_map_iff in Hf' as (r & E & Hr).
      apply (gapRows_sound rows) in Hr as (Hr & Hgap).
      destruct (Hst r Hr) as (Hrv & Hrm).
      destruct r as [h l]. unfold NonceSpace.successor, NonceSpace.validFragment in *.
      cbn [fst snd] in *.
      destruct (Z.ltb_spec l 2147483647) as [Hlt | Hge]; subst f; cbn [fst snd].
      + split; [lia |]. intros Hused. specialize (Hgap _ Hused).
        unfold combined in Hgap. cbn [fst snd] in Hgap. lia.
      + split; [lia |]. intros _. repeat split; try lia.
        replace (h + 1 - 1) with h by lia.
        replace 2147483647 with l by lia. exact Hr.
    - destruct (hasZeroZero rows) eqn:Ez; [contradiction |].
      destruct Hz as [<- | []]. cbn [fst snd]. split; [unfold INT64_MAX; lia |].
      intros Hused. apply hasZeroZero_In in Hused. congruence. }
  destruct Hhigh as (Hhigh & Hused).
  destruct Hv as (Hh & Hl).
  cbn [bind matchNextNonce] in Hn.
  replace ((fst f <? 0) || (snd f <? 0)) with false in Hn
    by (symmetry; apply orb_false_iff; split; apply Z.ltb_ge; lia).
  cbn [bind] in Hn.
  rewrite nonce_lor_is_sum in Hn by (unfold INT64_MAX in Hhigh; lia).
  exists f. split; [congruence |]. split; [split; assumption | exact Hused].
Qed.

Lemma generateNonce_reissues_only_block_starts_witness :
  (getAddress Demo.sponsorAddress = Ret Demo.sponsorValue
   /\ NonceSpace.storable (fragmentsOf Scenario.gappedLedger "1" Demo.sponsorValue)
   /\ generateNonce Demo.sponsorAddress "1" Scenario.gappedLedger
      = Ret Scenario.secondNonce)
  /\ exists f,
       Scenario.secondNonce = Demo.sponsorValue * 2 ^ 96 + fst f * 2 ^ 32 + snd f
       /\ NonceSpace.validFragment f
       /\ (In f (fragmentsOf Scenario.gappedLedger "1" Demo.sponsorValue) ->
           snd f = 0 /\ 1 <= fst f
           /\ In (fst f - 1, 2147483647)
                (fragmentsOf Scenario.gappedLedger "1" Demo.sponsorValue)).
Proof.
  assert (H1 : getAddress Demo.sponsorAddress = Ret Demo.sponsorValue)
    by (vm_compute; reflexivity).
  assert (H5 : generateNonce Demo.sponsorAddress "1" Scenario.gappedLedger
               = Ret Scenario.secondNonce) by (vm_compute; reflexivity).
  split; [split; [exact H1 | split; [exact gappedLedger_storable | exact H5]] |].
  exact (generateNonce_reissues_only_block_starts Demo.sponsorAddress "1"
           Demo.sponsorValue Scenario.secondNonce Scenario.gappedLedger
           H1 gappedLedger_storable H5).
Defined.

(** X11.  Packing a sponsor address, a high word below [2^53] and a low
    word into [a * 2^96 + h * 2^32 + l], rendering it with [bigintToHex]
    and splitting the digits the way [validateNonce] and [storeNonce] do
    gives back the three parts. *)
Theorem nonce_split_round_trip (a h l : Z) :
  0 <= a < 2 ^ 160 -> 0 <= h < 2 ^ 53 -> 0 <= l < 2 ^ 32 ->
  exists hex,
    bigintToHex (a * 2 ^ 96 + h * 2 ^ 32 + l) = Ret hex
    /\ hexToBytes (toHexString (sliceTo 40 hex)) = Ret a
    /\ splitFragment (sliceFrom 40 hex) = Ret (h, l).
Proof. exact (split_recovers_narrow_high a h l). Qed.

Lemma nonce_split_round_trip_witness :
  (0 <= Demo.sponsorValue < 2 ^ 160 /\ 0 <= 7 < 2 ^ 53 /\ 0 <= 5 < 2 ^ 32)
  /\ exists hex,
       bigintToHex (Demo.sponsorValue * 2 ^ 96 + 7 * 2 ^ 32 + 5) = Ret hex
       /\ hexToBytes (toHexString (sliceTo 40 hex)) = Ret Demo.sponsorValue
       /\ splitFragment (sliceFrom 40 hex) = Ret (7, 5).
Proof.
  assert (H1 : 0 <= Demo.sponsorValue < 2 ^ 160)
    by (vm_compute; split; [discriminate | reflexivity]).
  assert (H2 : 0 <= 7 < 2 ^ 53) by lia.
  assert (H3 : 0 <= 5 < 2 ^ 32) by lia.
  split; [repeat split; lia |].
  exact (nonce_split_round_trip Demo.sponsorValue 7 5 H1 H2 H3).
Defined.

(** ** Amounts and the claim hash *)

Lemma decimal_char (c : ascii) :
  (48 <=? charCode c) && (charCode c <=? 57) = true ->
  digitValue c = Some (charCode c - 48)
  /\ 0 <= charCode c - 48 < 10
  /\ isWhiteSpace c = false.
Proof.
  intros H. unfold digitValue, isWhiteSpace. rewrite H.
  apply andb_prop in H as [H1 H2]. apply Z.leb_le in H1, H2.
  split; [reflexivity |]. split; [lia |].
  apply orb_false_iff. split; [apply Z.eqb_neq; lia |].
  apply andb_false_iff. right. apply Z.leb_gt. lia.
Qed.

Lemma trimEnd_decimal (s : string) : allDecimal s = true -> trimEnd s = s.
Proof.
  induction s as [| c s IH]; [reflexivity |].
  cbn [allDecimal]. intros H. apply andb_prop in H as [Hc Hs].
  cbn [trimEnd]. rewrite (IH Hs).
  destruct (decimal_char c Hc) as (_ & _ & Hw).
  destruct s; [now rewrite Hw | reflexivity].
Qed.

Lemma digitsValue_decimal (s : string) (acc : Z) :
  allDecimal s = true -> 0 <= acc ->
  exists v, digitsValue 10 acc s = Some v /\ 0 <= v.
Proof.
  revert acc. induction s as [| c s IH]; intros acc Hs Hacc.
  - exists acc. split; [reflexivity | exact Hacc].
  - cbn [allDecimal] in Hs. apply andb_prop in Hs as [Hc Hs].
    destruct (decimal_char c Hc) as (Hd & Hr & _).
    cbn [digitsValue]. rewrite Hd.
    replace (charCode c - 48 <? 10) with true by (symmetry; apply Z.ltb_lt; lia).
    apply IH; [exact Hs | lia].
Qed.

(** On a non-empty string of decimal digits [BigInt] reads the digits in
    radix ten: no white space to drop, no sign, no radix prefix. *)
Lemma BigInt_of_decimal (s : string) :
  isDecimalString s = true -> BigInt_of_string s = digitsLiteral 10 s s.
Proof.
  destruct s as [| c0 r]; [discriminate |].
  cbn [isDecimalString]. intros H.
  pose proof H as H'. cbn [allDecimal] in H'. apply andb_prop in H' as [Hc Hr].
  destruct (decimal_char c0 Hc) as (_ & _ & Hw).
  unfold BigInt_of_string. cbn [trimStart]. rewrite Hw.
  rewrite (trimEnd_decimal _ H).
  destruct c0 as [[] [] [] [] [] [] [] []];
    try (vm_compute in Hc; discriminate Hc); try reflexivity.
  destruct r as [| c1 r']; [reflexivity |].
  cbn [allDecimal] in Hr. apply andb_prop in Hr as [Hc1 _].
  destruct c1 as [[] [] [] [] [] [] [] []];
    try (vm_compute in Hc1; discriminate Hc1); reflexivity.
Qed.

Lemma decimal_amount_parses (s : string) :
  isDecimalString s = true -> exists v, BigInt_of_string s = Ret v /\ 0 <= v.
Proof.
  intros H. rewrite (BigInt_of_decimal s H).
  destruct s as [| c r]; [discriminate H |].
  cbn [isDecimalString] in H.
  destruct (digitsValue_decimal (String c r) 0 H) as (v & Ev & Hv); [lia |].
  exists v. unfold digitsLiteral. rewrite Ev. split; [reflexivity | exact Hv].
Qed.

(** The facts behind an acceptance by [validateStructure]. *)
Lemma validateStructure_accepts (c : CompactMessage) (r : ValidationResult) :
  validateStructure c = Ret r -> isValid r = true ->
  (exists a, getAddress (arbiter c) = Ret a)
  /\ (exists s, getAddress (sponsor c) = Ret s)
  /\ 0 < expires c /\ 0 < id c
  /\ isDecimalString (amount c) = true
  /\ (witnessTypeString c = None <-> witnessHash c = None).
Proof.
  unfold validateStructure. intros Er Hv.
  destruct (getAddress (arbiter c)) as [a | ea]; cbn [bind] in Er;
    [| injection Er as <-; discriminate Hv].
  destruct (getAddress (sponsor c)) as [s | es]; cbn [try_catch] in Er;
    [| injection Er as <-; discriminate Hv].
  destruct (Z.leb_spec (expires c) 0); [injection Er as <-; discriminate Hv |].
  destruct (Z.leb_spec (id c) 0); [injection Er as <-; discriminate Hv |].
  destruct (isDecimalString (amount c)); cbn [negb] in Er;
    [| injection Er as <-; discriminate Hv].
  destruct (witnessTypeString c), (witnessHash c);
    try (injection Er as <-; discriminate Hv);
    repeat split; eauto; try lia; try discriminate.
Qed.

(** X12.  An amount that [validateStructure] lets through converts with
    [BigInt] to a number that is not negative: the conversions of
    [compact.amount] in validateAllocation and generateClaimHash cannot
    throw on a structurally valid compact, and no negative amount is ever
    allocated or hashed. *)
Theorem accepted_amount_is_a_natural_number (c : CompactMessage) (r : ValidationResult) :
  validateStructure c = Ret r -> isValid r = true ->
  exists v, BigInt_of_string (amount c) = Ret v /\ 0 <= v.
Proof.
  intros Er Hv.
  destruct (validateStructure_accepts c r Er Hv) as (_ & _ & _ & _ & Hd & _).
  exact (decimal_amount_parses (amount c) Hd).
Qed.

Lemma accepted_amount_is_a_natural_number_witness :
  (validateStructure (Demo.compactWith None) = Ret valid /\ isValid valid = true)
  /\ exists v, BigInt_of_string (amount (Demo.compactWith None)) = Ret v /\ 0 <= v.
Proof.
  assert (H1 : validateStructure (Demo.compactWith None) = Ret valid)
    by (vm_compute; reflexivity).
  split; [split; [exact H1 | reflexivity] |].
  exact (accepted_amount_is_a_natural_number (Demo.compactWith None) valid H1 eq_refl).
Defined.

(** X13.  On a compact that [validateStructure] accepts, [generateClaimHash]
    throws only if [hashTypedData] does: its result is [hashTypedData] of
    the domain of the chain and the message built from the two address
    values, the nonce as given, expiry, id and the amount as a number,
    under the schema chosen by the truthiness of the witness fields. *)
Theorem generateClaimHash_of_valid_structure (env : Env) (c : CompactMessage)
    (chain : Z) (r : ValidationResult) :
  validateStructure c = Ret r -> isValid r = true ->
  exists a1 a2 amount_,
    getAddress (arbiter c) = Ret a1 /\ getAddress (sponsor c) = Ret a2
    /\ BigInt_of_string (amount c) = Ret amount_ /\ 0 <= amount_
    /\ generateClaimHash env c chain
       = hashTypedData env
           {| td_domain := DOMAIN chain;
              td_types := if falsy (witnessTypeString c) || falsy (witnessHash c)
                          then COMPACT_TYPES else COMPACT_WITH_WITNESS_TYPES;
              td_primaryType := "Compact";
              td_message :=
                if falsy (witnessTypeString c) || falsy (witnessHash c)
                then baseMessage a1 a2 c amount_
                else (baseMessage a1 a2 c amount_ ++
                      [ ("witnessTypeString",
                         VString (match witnessTypeString c with
                                  | Some s => s | None => "" end));
                        ("witnessHash",
                         VBytes32 (match witnessHash c with
                                   | Some s => s | None => "" end)) ])%list |}.
Proof.
  intros Er Hv.
  destruct (validateStructure_accepts c r Er Hv) as ((a1 & E1) & (a2 & E2) & _ & _ & Hd & _).
  destruct (decimal_amount_parses (amount c) Hd) as (v & Ev & Hv0).
  exists a1, a2, v. repeat split; try assumption.
  rewrite generateClaimHash_schema, E1, E2, Ev. reflexivity.
Qed.

Lemma generateClaimHash_of_valid_structure_witness :
  (validateStructure (Demo.compactWith (Some Demo.firstNonce)) = Ret valid
   /\ isValid valid = true)
  /\ exists a1 a2 amount_,
       getAddress (arbiter (Demo.compactWith (Some Demo.firstNonce))) = Ret a1
       /\ getAddress (sponsor (Demo.compactWith (Some Demo.firstNonce))) = Ret a2
       /\ BigInt_of_string (amount (Demo.compactWith (Some Demo.firstNonce))) = Ret amount_
       /\ 0 <= amount_
       /\ generateClaimHash Demo.funded (Demo.compactWith (Some Demo.firstNonce)) 1
          = hashTypedData Demo.funded
              {| td_domain := DOMAIN 1;
                 td_types := COMPACT_TYPES;
                 td_primaryType := "Compact";
                 td_message :=
                   baseMessage a1 a2 (Demo.compactWith (Some Demo.firstNonce)) amount_ |}.
Proof.
  assert (H1 : validateStructure (Demo.compactWith (Some Demo.firstNonce)) = Ret valid)
    by (vm_compute; reflexivity).
  split; [split; [exact H1 | reflexivity] |].
  exact (generateClaimHash_of_valid_structure Demo.funded
           (Demo.compactWith (Some Demo.firstNonce)) 1 valid H1 eq_refl).
Defined.

(** ** What validation reads, and what an acceptance guarantees *)

Lemma validateAllocation_reads_compacts (env : Env) (c : CompactMessage)
    (chain : string) (t1 t2 : Tables) :
  compacts t1 = compacts t2 ->
  validateAllocation env c chain t1 = validateAllocation env c chain t2.
Proof.
  intros Hc. unfold validateAllocation, getAllocatedBalance.
  cbn [selectAllocated selectAllocatedExcluding Tables_Database].
  unfold tbl_selectAllocated, tbl_selectAllocatedExcluding.
  rewrite Hc. reflexivity.
Qed.

(** X14.  For a compact whose nonce is null, the verdict of
    [validateCompact] does not depend on the [nonces] table: two stores
    with the same compacts give the same result, whatever nonces they
    hold. *)
Theorem null_nonce_ignores_ledger (env : Env) (c : CompactMessage) (chain : string)
    (t1 t2 : Tables) :
  nonce c = None -> compacts t1 = compacts t2 ->
  validateCompact env c chain t1 = validateCompact env c chain t2.
Proof.
  intros Hn Hc. unfold validateCompact. rewrite Hn.
  rewrite (validateAllocation_reads_compacts env c chain t1 t2 Hc). reflexivity.
Qed.

Lemma null_nonce_ignores_ledger_witness :
  (nonce (Demo.compactWith None) = None
   /\ compacts Demo.emptyTables = compacts Scenario.gappedLedger)
  /\ validateCompact Demo.funded (Demo.compactWith None) "1" Demo.emptyTables
     = validateCompact Demo.funded (Demo.compactWith None) "1" Scenario.gappedLedger.
Proof.
  split; [split; reflexivity |].
  exact (null_nonce_ignores_ledger Demo.funded (Demo.compactWith None) "1"
           Demo.emptyTables Scenario.gappedLedger eq_refl eq_refl).
Defined.

Lemma validateExpiration_accepts (env : Env) (e : Z) :
  isValid (validateExpiration env e) = true ->
  now env AtExpiration < e <= now env AtExpiration + 7200.
Proof.
  unfold validateExpiration.
  destruct (Z.leb_spec e (now env AtExpiration)); [discriminate |].
  destruct (Z.gtb_spec e (now env AtExpiration + 7200)); [discriminate |].
  intros _. lia.
Qed.

Lemma validateDomainAndId_accepts (env : Env) (i e : Z) (chain allocator : string)
    (r : ValidationResult) :
  validateDomainAndId env i e chain allocator = Ret r -> isValid r = true ->
  0 < i
  /\ ((NODE_ENV_test env = true /\ i = 1) \/ e <= now env AtDomain + resetPeriodOf i).
Proof.
  unfold validateDomainAndId. intros Er Hv.
  destruct (Z.leb_spec i 0) as [Hi | Hi]; [injection Er as <-; discriminate Hv |].
  destruct (negb (canonicalChainId env chain)); [injection Er as <-; discriminate Hv |].
  split; [exact Hi |].
  destruct (NODE_ENV_test env && (i =? 1)) eqn:Et.
  - left. apply andb_prop in Et as [E1 E2]. apply Z.eqb_eq in E2. now split.
  - right. rewrite resetPeriods_lookup in Er by lia. cbn [try_catch] in Er.
    destruct (Z.ltb_spec (now env AtDomain + resetPeriodOf i) e);
      [injection Er as <-; discriminate Hv | lia].
Qed.

(** X15.  Every compact that [validateCompact] accepts, on whatever
    database, has a canonical chain id, a well-formed sponsor, an id in
    [1, 2^256 - 1], an expiry strictly after the clock reading and at most
    7200 seconds after it, and -- unless it is the id 1 in test mode -- an
    expiry that the clock reading plus the reset period of the id reaches;
    its nonce, when it has one, is a 256-bit number that spells the
    sponsor in its upper 160 bits. *)
Theorem accepted_compact_invariants {D : Type} `{Database D} (env : Env) (db : D)
    (c : CompactMessage) (chain : string) (r : ValidationResult) :
  validateCompact env c chain db = Ret r -> isValid r = true ->
  canonicalChainId env chain = true
  /\ (exists a,
        getAddress (sponsor c) = Ret a
        /\ forall n, nonce c = Some n -> 0 <= n < 2 ^ 256 /\ n / 2 ^ 96 = a)
  /\ 0 < id c < 2 ^ 256
  /\ now env AtExpiration < expires c <= now env AtExpiration + 7200
  /\ ((NODE_ENV_test env = true /\ id c = 1)
      \/ expires c <= now env AtDomain + resetPeriodOf (id c)).
Proof.
  intros Ev Vr.
  destruct (validateCompact_accepts env _ _ _ _ Ev Vr)
    as (Hc & (rs & Es & Vs) & Hnonce & Hexp & (rd & Ed & Vd) & (ra & Era & Vra)).
  destruct (validateDomainAndId_accepts env _ _ _ _ _ Ed Vd) as (Hid & Hreset).
  destruct (validateStructure_accepts _ _ Es Vs) as (_ & (a & Ea) & _).
  destruct (validateAllocation_accepts env _ _ _ _ Era Vra)
    as (response & lock & locks & b & pending & a' & th & allocated & amt & Hfacts).
  destruct Hfacts as (_ & _ & _ & _ & _ & _ & _ & Hrange & _).
  split; [exact Hc |]. split.
  { exists a. split; [exact Ea |].
    intros n Hn. destruct (Hnonce n Hn) as (rn & En & Vn).
    destruct (validateNonce_accepts _ _ _ _ _ En Vn) as (Hn256 & (a2 & Ea2 & Hq)).
    split; [exact Hn256 | congruence]. }
  split; [lia |].
  split; [apply validateExpiration_accepts; exact Hexp | exact Hreset].
Qed.

Lemma accepted_compact_invariants_witness :
  validateCompact Demo.funded (Demo.compactWith (Some Demo.firstNonce)) "1"
    Demo.emptyTables = Ret valid
  /\ canonicalChainId Demo.funded "1" = true
  /\ (exists a,
        getAddress (sponsor (Demo.compactWith (Some Demo.firstNonce))) = Ret a
        /\ forall n, nonce (Demo.compactWith (Some Demo.firstNonce)) = Some n ->
             0 <= n < 2 ^ 256 /\ n / 2 ^ 96 = a)
  /\ 0 < id (Demo.compactWith (Some Demo.firstNonce)) < 2 ^ 256
  /\ now Demo.funded AtExpiration
     < expires (Demo.compactWith (Some Demo.firstNonce))
     <= now Demo.funded AtExpiration + 7200
  /\ ((NODE_ENV_test Demo.funded = true
       /\ id (Demo.compactWith (Some Demo.firstNonce)) = 1)
      \/ expires (Demo.compactWith (Some Demo.firstNonce))
         <= now Demo.funded AtDomain
            + resetPeriodOf (id (Demo.compactWith (Some Demo.firstNonce)))).
Proof.
  assert (E : validateCompact Demo.funded (Demo.compactWith (Some Demo.firstNonce)) "1"
                Demo.emptyTables = Ret valid) by (vm_compute; reflexivity).
  split; [exact E |].
  exact (accepted_compact_invariants Demo.funded Demo.emptyTables
           (Demo.compactWith (Some Demo.firstNonce)) "1" valid E eq_refl).
Defined.

(** ** Stored compacts (storeCompact, getCompactByHash) *)




(** ** Sessions (verifySession, formatMessage) *)

(** X20.  An expired session is removed by the check that finds it
    expired.  If the sessions with the given id are all past their expiry
    (with a primary key on the id there is one), [verifySession] throws
    "Session has expired" and leaves the table without them; any later
    check of the id throws "Invalid session ID"; sessions with another id
    are kept. *)
Theorem expired_session_is_purged (nowMs : Z) (rows : list Session.SessionRow)
    (sid : string) (address_ : option string) (r : Session.SessionRow) :
  sid <> "" ->
  In r rows -> Session.row_id r = sid ->
  (forall r', In r' rows -> Session.row_id r' = sid -> Session.row_expires_at r' < nowMs) ->
  exists rows',
    Session.verifySession nowMs rows sid address_
    = (Throw (ErrorObj "Session has expired"), rows')
    /\ (forall later address', Session.verifySession later rows' sid address'
                               = (Throw (ErrorObj "Invalid session ID"), rows'))
    /\ (forall r', In r' rows' <-> In r' rows /\ Session.row_id r' <> sid).
Proof.
  intros Hsid Hin Hid Hexp.
  exists (filter (fun r => negb (String.eqb (Session.row_id r) sid)) rows).
  split; [| split].
  - unfold Session.verifySession.
    destruct sid as [| c s]; [now elim Hsid |].
    cbn [Session.selectSession Session.Rows_SessionStore Session.deleteSession].
    unfold Session.tbl_selectSession, Session.tbl_deleteSession.
    destruct (filter (fun r0 => String.eqb (Session.row_id r0) (String c s)) rows)
      as [| x xs] eqn:Ef.
    + assert (Hx : In r (filter (fun r0 => String.eqb (Session.row_id r0) (String c s)) rows)).
      { apply filter_In. split; [exact Hin |]. now apply String.eqb_eq. }
      rewrite Ef in Hx. destruct Hx.
    + cbn [map].
      assert (Hx : In x (filter (fun r0 => String.eqb (Session.row_id r0) (String c s)) rows))
        by (rewrite Ef; now left).
      apply filter_In in Hx. destruct Hx as (Hxin & Hxid). apply String.eqb_eq in Hxid.
      pose proof (Hexp x Hxin Hxid) as Hlt.
      destruct (Z.gtb_spec nowMs (Session.row_expires_at x)); [reflexivity | lia].
  - intros later address'. unfold Session.verifySession.
    destruct sid as [| c s]; [now elim Hsid |].
    cbn [Session.selectSession Session.Rows_SessionStore].
    unfold Session.tbl_selectSession.
    assert (E : filter (fun r0 => String.eqb (Session.row_id r0) (String c s))
                  (filter (fun r0 => negb (String.eqb (Session.row_id r0) (String c s))) rows)
                = []).
    { apply filter_none. intros x Hx. apply filter_In in Hx. destruct Hx as (_ & Hx).
      now destruct (String.eqb (Session.row_id x) (String c s)). }
    rewrite E. reflexivity.
  - intros r'. rewrite filter_In. split.
    + intros (H1 & H2). split; [exact H1 |]. intros E.
      apply String.eqb_eq in E. rewrite E in H2. discriminate H2.
    + intros (H1 & H2). split; [exact H1 |].
      destruct (String.eqb_spec (Session.row_id r') sid); [contradiction | reflexivity].
Qed.

Lemma expired_session_is_purged_witness :
  exists rows',
    Session.verifySession 1700000000000 Scenario.sessions "s-2" None
    = (Throw (ErrorObj "Session has expired"), rows')
    /\ (forall later address', Session.verifySession later rows' "s-2" address'
                               = (Throw (ErrorObj "Invalid session ID"), rows'))
    /\ (forall r', In r' rows' <-> In r' Scenario.sessions /\ Session.row_id r' <> "s-2").
Proof.
  refine (expired_session_is_purged 1700000000000 Scenario.sessions "s-2" None
            {| Session.row_id := "s-2"; Session.row_address := Demo.sponsorAddress;
               Session.row_expires_at := 1699990000000 |} _ _ _ _).
  - discriminate.
  - right. left. reflexivity.
  - reflexivity.
  - intros r' [E | [E | []]] Hid; subst r'; [discriminate Hid | reflexivity].
Defined.

(** X21.  What a passed check means.  When [verifySession] returns, it
    returns true and the table is as it was; the id is not empty; the
    first session with that id has not expired ([now <= expires_at], the
    expiry instant itself included); and an address given with the call,
    unless it is the empty string, is the session's address. *)
Theorem verified_session_is_live (nowMs : Z) (rows rows' : list Session.SessionRow)
    (sid : string) (address_ : option string) (b : bool) :
  Session.verifySession nowMs rows sid address_ = (Ret b, rows') ->
  b = true /\ rows' = rows /\ sid <> ""
  /\ exists r, In r rows /\ Session.row_id r = sid
               /\ nowMs <= Session.row_expires_at r
               /\ forall a, address_ = Some a -> a <> "" ->
                    exists v, getAddress a = Ret v
                              /\ getAddress (Session.row_address r) = Ret v.
Proof.
  unfold Session.verifySession. intros Hv.
  destruct sid as [| c s]; [discriminate Hv |].
  cbn [Session.selectSession Session.Rows_SessionStore Session.deleteSession] in Hv.
  unfold Session.tbl_selectSession, Session.tbl_deleteSession in Hv.
  destruct (filter (fun r0 => String.eqb (Session.row_id r0) (String c s)) rows)
    as [| x xs] eqn:Ef; [discriminate Hv |].
  cbn [map] in Hv.
  assert (Hx : In x (filter (fun r0 => String.eqb (Session.row_id r0) (String c s)) rows))
    by (rewrite Ef; now left).
  apply filter_In in Hx. destruct Hx as (Hxin & Hxid). apply String.eqb_eq in Hxid.
  destruct (Z.gtb_spec nowMs (Session.row_expires_at x)) as [Hgt | Hle];
    [discriminate Hv |].
  assert (Hfacts : b = true /\ rows' = rows
                   /\ forall a, address_ = Some a -> a <> "" ->
                        exists v, getAddress a = Ret v
                                  /\ getAddress (Session.row_address x) = Ret v).
  { destruct address_ as [[| ca sa] |].
    - injection Hv as <- <-. split; [reflexivity |]. split; [reflexivity |].
      intros a Ea Hne. injection Ea as <-. now elim Hne.
    - destruct (getAddress (String ca sa)) as [given | e] eqn:Egiven;
        [| discriminate Hv].
      destruct (getAddress (Session.row_address x)) as [stored | e] eqn:Estored;
        [| discriminate Hv].
      destruct (Z.eqb_spec given stored) as [Eg | Eg]; cbn [negb] in Hv;
        [| discriminate Hv].
      injection Hv as <- <-. split; [reflexivity |]. split; [reflexivity |].
      intros a Ea _. injection Ea as <-. exists given. split; [exact Egiven |].
      rewrite Eg. reflexivity.
    - injection Hv as <- <-. split; [reflexivity |]. split; [reflexivity |].
      intros a Ea. discriminate Ea. }
  destruct Hfacts as (Hb & Hrows & Haddr).
  split; [exact Hb |]. split; [exact Hrows |]. split; [discriminate |].
  exists x. split; [exact Hxin |]. split; [exact Hxid |]. split; [exact Hle |].
  exact Haddr.
Qed.

Lemma verified_session_is_live_witness :
  Session.verifySession 1700003600000 Scenario.sessions "s-1" (Some Demo.sponsorAddress)
  = (Ret true, Scenario.sessions)
  /\ (true = true /\ Scenario.sessions = Scenario.sessions /\ "s-1" <> ""
      /\ exists r, In r Scenario.sessions /\ Session.row_id r = "s-1"
                   /\ 1700003600000 <= Session.row_expires_at r
                   /\ forall a, Some Demo.sponsorAddress = Some a -> a <> "" ->
                        exists v, getAddress a = Ret v
                                  /\ getAddress (Session.row_address r) = Ret v).
Proof.
  assert (E : Session.verifySession 1700003600000 Scenario.sessions "s-1"
                (Some Demo.sponsorAddress) = (Ret true, Scenario.sessions))
    by (vm_compute; reflexivity).
  split; [exact E |].
  exact (verified_session_is_live 1700003600000 Scenario.sessions Scenario.sessions
           "s-1" (Some Demo.sponsorAddress) true E).
Defined.

Lemma join_cons (sep l : string) (x : string) (rest : list string) :
  Session.join sep (l :: x :: rest) = (l ++ sep ++ Session.join sep (x :: rest))%string.
Proof. reflexivity. Qed.

Lemma join_app (sep : string) (l1 l2 : list string) :
  l1 <> [] -> l2 <> [] ->
  Session.join sep (l1 ++ l2)
  = (Session.join sep l1 ++ sep ++ Session.join sep l2)%string.
Proof.
  intros H1 H2. induction l1 as [| a [| b l1] IH]; [now elim H1 | |].
  - destruct l2 as [| c l2]; [now elim H2 |]. reflexivity.
  - change ((a :: b :: l1) ++ l2)%list with (a :: b :: (l1 ++ l2))%list.
    rewrite !join_cons.
    change (b :: (l1 ++ l2))%list with ((b :: l1) ++ l2)%list.
    rewrite IH by discriminate. rewrite !string_app_assoc. reflexivity.
Qed.

(** X22.  The message a session signature is checked against, and the one
    the test helper builds.  [formatMessage] gives what [formatTestMessage]
    gives when the payload has no resources (absent or an empty array);
    with resources it gives that text followed by a line [Resources:] and
    one line [- r] for each resource, in order. *)
Theorem formatMessage_extends_formatTestMessage (payload : Session.SessionPayload) :
  Session.formatMessage payload
  = match Session.resources payload with
    | Some (r :: rs) =>
        (Session.formatTestMessage payload ++ Session.newline ++ "Resources:"
         ++ Session.newline
         ++ Session.join Session.newline (map (String.append "- ") (r :: rs)))%string
    | _ => Session.formatTestMessage payload
    end.
Proof.
  unfold Session.formatMessage, Session.formatTestMessage.
  destruct (Session.resources payload) as [[| r rs] |]; try reflexivity.
  rewrite join_app; [| discriminate | discriminate].
  change ([ "Resources:" ] ++ map (String.append "- ") (r :: rs))%list
    with ("Resources:" :: String.append "- " r :: map (String.append "- ") rs)%list.
  rewrite join_cons. reflexivity.
Qed.
